(** * RuleOutput and fileEqual (Build/lib/rules/base.ts)

    A shallow embedding of the rule accumulator [RuleOutput] and of the
    line comparator [fileEqual], followed by the properties that the
    specification states about them.

    JavaScript strings are embedded as [string]; one character of the
    embedding stands for one code unit of the JavaScript string.  A value
    that is a string at the type level but may be [undefined] at run time
    (an array read out of range) is a [jsval]. *)

From Stdlib Require Import List String Ascii ZArith Bool Lia Permutation.
Import ListNotations.
Open Scope string_scope.
Open Scope Z_scope.

(* ================================================================= *)
(** ** JavaScript values and primitives used by the source *)

Inductive jsval : Type :=
| undefined
| str (s : string).

Definition jsval_eqb (a b : jsval) : bool :=
  match a, b with
  | undefined, undefined => true
  | str x, str y => String.eqb x y
  | _, _ => false
  end.

(** [v === 'literal'] for a value that may be undefined. *)
Definition strict_eq (v : jsval) (literal : string) : bool := jsval_eqb v (str literal).

(** [array[index]]: [undefined] outside the array. *)
Definition array_get (array : list string) (index : Z) : jsval :=
  if index <? 0 then undefined
  else match nth_error array (Z.to_nat index) with
       | Some s => str s
       | None => undefined
       end.

(** [s.length] *)
Definition js_length (s : string) : Z := Z.of_nat (String.length s).

(** [s.charCodeAt(i)]; [None] is NaN. *)
Definition charCodeAt (s : string) (i : nat) : option Z :=
  match String.get i s with
  | Some c => Some (Z.of_nat (nat_of_ascii c))
  | None => None
  end.

(** [a !== b] on numbers: NaN differs from everything, itself included. *)
Definition num_strict_neq (a b : option Z) : bool :=
  match a, b with
  | Some x, Some y => negb (x =? y)
  | _, _ => true
  end.

(** [a === n] for a number literal [n]. *)
Definition num_is (a : option Z) (n : Z) : bool :=
  match a with
  | Some x => x =? n
  | None => false
  end.

(** [s[i] === 'c'] *)
Definition char_is (s : string) (i : nat) (c : ascii) : bool :=
  match String.get i s with
  | Some d => Ascii.eqb d c
  | None => false
  end.

(** [s.includes(sub)] *)
Fixpoint includes (s sub : string) : bool :=
  String.prefix sub s ||
  match s with
  | EmptyString => false
  | String _ s' => includes s' sub
  end.

(** [s.split(sep)] for a one-character separator; the result is never
    empty. *)
Fixpoint split (sep : ascii) (s : string) : list string :=
  match s with
  | EmptyString => [EmptyString]
  | String c s' =>
      if Ascii.eqb c sep then EmptyString :: split sep s'
      else match split sep s' with
           | [] => [String c EmptyString]
           | field :: fields => String c field :: fields
           end
  end.

(** [fields.join(sep)] *)
Definition join (sep : string) (fields : list string) : string :=
  String.concat sep fields.

Definition comma : ascii := ","%char.
Definition slash : ascii := "/"%char.
Definition backslash : ascii := ascii_of_nat 92.

(** A call that either returns or throws. *)
Inductive completion (A : Type) : Type :=
| Normal (a : A)
| Throw (error : string).
Arguments Normal {A} a.
Arguments Throw {A} error.

(* ================================================================= *)
(** ** fileEqual *)

(** What one pass through the loop body decides. *)
Inductive verdict : Type :=
| Continue
| Return (b : bool).

(** The loop body from [const lineA = linesA[index]] on, for a defined
    [lineA]. *)
Definition compareLine (lineA lineB : string) : verdict :=
  if (js_length lineA =? 0) && (js_length lineB =? 0) then Continue
  else if (js_length lineA =? 0) || (js_length lineB =? 0) then Return false
  else
    let firstCharA := charCodeAt lineA 0 in
    let firstCharB := charCodeAt lineB 0 in
    if num_strict_neq firstCharA firstCharB then Return false
    else if num_is firstCharA 35 && num_is firstCharB 35 then Continue
    else if num_is firstCharA 33 && num_is firstCharB 33 then Continue
    else if num_is firstCharA 47 && num_is firstCharB 47
            && char_is lineA 1 "/" && char_is lineB 1 "/"
            && char_is lineA 3 "#" && char_is lineB 3 "#" then Continue
    else if negb (String.eqb lineA lineB) then Return false
    else Continue.

(** [for await (const lineB of source)], entered with the value [index]
    had after the previous iteration. *)
Fixpoint fileEqual_loop (linesA : list string) (index : Z) (source : list string)
  : completion bool :=
  let linesABound := Z.of_nat (List.length linesA) - 1 in
  match source with
  | [] => Normal (negb (index <? linesABound))
  | lineB :: source' =>
      let index := index + 1 in
      if index >? linesABound then
        Normal ((index =? Z.of_nat (List.length linesA)) && (js_length lineB =? 0))
      else
        match array_get linesA index with
        | undefined =>
            Throw "TypeError: Cannot read properties of undefined (reading 'length')"
        | str lineA =>
            match compareLine lineA lineB with
            | Continue => fileEqual_loop linesA index source'
            | Return b => Normal b
            end
        end
  end.

Definition fileEqual (linesA : list string) (source : list string) : completion bool :=
  if Z.of_nat (List.length linesA) =? 0 then Normal false
  else fileEqual_loop linesA (-1) source.

(* ----------------------------------------------------------------- *)
(** *** The comparator as the specification words it *)

Definition startsWith (marker : ascii) (line : string) : Prop :=
  String.get 0 line = Some marker.

(** [//] prefix with [#] at offset 3. *)
Definition headerDivider (line : string) : Prop :=
  String.get 0 line = Some "/"%char /\
  String.get 1 line = Some "/"%char /\
  String.get 3 line = Some "#"%char.

Definition linesEqualSpec (lineA lineB : string) : Prop :=
  (lineA = "" /\ lineB = "")
  \/ (startsWith "#" lineA /\ startsWith "#" lineB)
  \/ (startsWith "!" lineA /\ startsWith "!" lineB)
  \/ (headerDivider lineA /\ headerDivider lineB)
  \/ lineA = lineB.

(* ================================================================= *)
(** ** The accumulator's containers *)

(** A JavaScript [Set]: distinct values in insertion order.  The fields
    are typed [Set<string>]; at run time [add] stores whatever it is
    given, [undefined] included. *)
Module JSSet.
Definition t : Type := list jsval.
Definition empty : t := [].
Definition has (v : jsval) (s : t) : bool := existsb (jsval_eqb v) s.
Definition add (v : jsval) (s : t) : t :=
  if has v s then s else (s ++ [v])%list.
End JSSet.

(** Modelled from the spec: HostnameSmolTrie (../trie) is not among the
    sources.  The specification describes the delegate only through the
    calls the accumulator makes on it,
    [add(domain, isSuffix, suffixStartOffset, priority)] and
    [whitelist(domain)]; the delegate is represented by the calls it has
    received, in order, with the arguments as the source passes them. *)
Inductive jsarg : Type :=
| ArgValue (v : jsval)
| ArgBool (b : bool)
| ArgNull
| ArgNumber (n : Z).

Inductive trieCall : Type :=
| TrieAdd (args : list jsarg)
| TrieWhitelist (domain : string).

(** Modelled from the spec: the reading of an [add] call by the delegate,
    second argument [isSuffix], third argument [suffixStartOffset]; the
    name kept is the domain from that offset on. *)
Definition isSuffix (call : trieCall) : bool :=
  match call with
  | TrieAdd (_ :: ArgBool b :: _) => b
  | _ => false
  end.

Definition suffixStartOffset (call : trieCall) : Z :=
  match call with
  | TrieAdd (_ :: _ :: ArgNumber n :: _) => n
  | _ => 0
  end.

Definition storedDomain (call : trieCall) : jsval :=
  match call with
  | TrieAdd (ArgValue (str domain) :: _) =>
      let offset := Z.to_nat (suffixStartOffset call) in
      str (String.substring offset (String.length domain - offset) domain)
  | _ => undefined
  end.

(** The names of the [Set<string>] fields of the class. *)
Inductive SetField : Type :=
| DomainKeywords
| DomainWildcard
| UserAgent
| ProcessName
| ProcessPath
| UrlRegex
| Ipcidr
| IpcidrNoResolve
| Ipasn
| IpasnNoResolve
| Ipcidr6
| Ipcidr6NoResolve
| Geoip
| GroipNoResolve
| SourceIpOrCidr
| SourcePort
| DestPort.

Definition SetField_eqb (f g : SetField) : bool :=
  match f, g with
  | DomainKeywords, DomainKeywords => true
  | DomainWildcard, DomainWildcard => true
  | UserAgent, UserAgent => true
  | ProcessName, ProcessName => true
  | ProcessPath, ProcessPath => true
  | UrlRegex, UrlRegex => true
  | Ipcidr, Ipcidr => true
  | IpcidrNoResolve, IpcidrNoResolve => true
  | Ipasn, Ipasn => true
  | IpasnNoResolve, IpasnNoResolve => true
  | Ipcidr6, Ipcidr6 => true
  | Ipcidr6NoResolve, Ipcidr6NoResolve => true
  | Geoip, Geoip => true
  | GroipNoResolve, GroipNoResolve => true
  | SourceIpOrCidr, SourceIpOrCidr => true
  | SourcePort, SourcePort => true
  | DestPort, DestPort => true
  | _, _ => false
  end.

(** The [Set<string>] fields themselves. *)
Record Buckets : Type := mkBuckets {
  domainKeywords : JSSet.t;
  domainWildcard : JSSet.t;
  userAgent : JSSet.t;
  processName : JSSet.t;
  processPath : JSSet.t;
  urlRegex : JSSet.t;
  ipcidr : JSSet.t;
  ipcidrNoResolve : JSSet.t;
  ipasn : JSSet.t;
  ipasnNoResolve : JSSet.t;
  ipcidr6 : JSSet.t;
  ipcidr6NoResolve : JSSet.t;
  geoip : JSSet.t;
  groipNoResolve : JSSet.t;
  sourceIpOrCidr : JSSet.t;
  sourcePort : JSSet.t;
  destPort : JSSet.t
}.

Definition emptyBuckets : Buckets :=
  mkBuckets JSSet.empty JSSet.empty JSSet.empty JSSet.empty JSSet.empty JSSet.empty
            JSSet.empty JSSet.empty JSSet.empty JSSet.empty JSSet.empty JSSet.empty
            JSSet.empty JSSet.empty JSSet.empty JSSet.empty JSSet.empty.

(** [this.f] for a set field [f]. *)
Definition getSet (f : SetField) (b : Buckets) : JSSet.t :=
  match f with
  | DomainKeywords => domainKeywords b
  | DomainWildcard => domainWildcard b
  | UserAgent => userAgent b
  | ProcessName => processName b
  | ProcessPath => processPath b
  | UrlRegex => urlRegex b
  | Ipcidr => ipcidr b
  | IpcidrNoResolve => ipcidrNoResolve b
  | Ipasn => ipasn b
  | IpasnNoResolve => ipasnNoResolve b
  | Ipcidr6 => ipcidr6 b
  | Ipcidr6NoResolve => ipcidr6NoResolve b
  | Geoip => geoip b
  | GroipNoResolve => groipNoResolve b
  | SourceIpOrCidr => sourceIpOrCidr b
  | SourcePort => sourcePort b
  | DestPort => destPort b
  end.

Definition updateIf (f g : SetField) (update : JSSet.t -> JSSet.t) (s : JSSet.t) : JSSet.t :=
  if SetField_eqb f g then update s else s.

(** A mutation of the set object held in field [f]; the other fields keep
    their objects. *)
Definition updSet (f : SetField) (update : JSSet.t -> JSSet.t) (b : Buckets) : Buckets :=
  {|
    domainKeywords := updateIf f DomainKeywords update (domainKeywords b);
    domainWildcard := updateIf f DomainWildcard update (domainWildcard b);
    userAgent := updateIf f UserAgent update (userAgent b);
    processName := updateIf f ProcessName update (processName b);
    processPath := updateIf f ProcessPath update (processPath b);
    urlRegex := updateIf f UrlRegex update (urlRegex b);
    ipcidr := updateIf f Ipcidr update (ipcidr b);
    ipcidrNoResolve := updateIf f IpcidrNoResolve update (ipcidrNoResolve b);
    ipasn := updateIf f Ipasn update (ipasn b);
    ipasnNoResolve := updateIf f IpasnNoResolve update (ipasnNoResolve b);
    ipcidr6 := updateIf f Ipcidr6 update (ipcidr6 b);
    ipcidr6NoResolve := updateIf f Ipcidr6NoResolve update (ipcidr6NoResolve b);
    geoip := updateIf f Geoip update (geoip b);
    groipNoResolve := updateIf f GroipNoResolve update (groipNoResolve b);
    sourceIpOrCidr := updateIf f SourceIpOrCidr update (sourceIpOrCidr b);
    sourcePort := updateIf f SourcePort update (sourcePort b);
    destPort := updateIf f DestPort update (destPort b)
  |}.

(* ================================================================= *)
(** ** The instance *)

(** Work appended to [pendingPromise]. *)
Inductive task : Type :=
| DomainsetTask (source : list string)
| RulesetTask (source : list string).

(** The chain held in [pendingPromise]: callbacks that have not run yet,
    or a rejection, which skips every callback chained after it. *)
Inductive promise : Type :=
| Queued (tasks : list task)
| Rejected (error : string).

(** The fields of the class other than the sets.  [T] is [TPreprocessed]
    and [preprocessed] the private field [$$preprocessed]; [None] in an
    [option] field is [null].  Span (../../trace) is outside the sources:
    [span] keeps the names of the child spans opened on the instance's
    span, in order.  [console] keeps what was printed. *)
Record RuleOutput (T : Type) : Type := mkRuleOutput {
  id : string;
  domainTrie : list trieCall;
  sets : Buckets;
  otherRules : list string;
  pendingPromise : option promise;
  title : option string;
  description : option (list string);
  date : Z;
  preprocessed : option T;
  span : list string;
  mitmSgmodulePath : option string;
  console : list string
}.
Arguments id {T} _.
Arguments domainTrie {T} _.
Arguments sets {T} _.
Arguments otherRules {T} _.
Arguments pendingPromise {T} _.
Arguments title {T} _.
Arguments description {T} _.
Arguments date {T} _.
Arguments preprocessed {T} _.
Arguments span {T} _.
Arguments mitmSgmodulePath {T} _.
Arguments console {T} _.
Arguments mkRuleOutput {T}.

Definition set_domainTrie {T} (v : list trieCall) (o : RuleOutput T) : RuleOutput T :=
  {|
    id := id o;
    domainTrie := v;
    sets := sets o;
    otherRules := otherRules o;
    pendingPromise := pendingPromise o;
    title := title o;
    description := description o;
    date := date o;
    preprocessed := preprocessed o;
    span := span o;
    mitmSgmodulePath := mitmSgmodulePath o;
    console := console o
  |}.

Definition set_sets {T} (v : Buckets) (o : RuleOutput T) : RuleOutput T :=
  {|
    id := id o;
    domainTrie := domainTrie o;
    sets := v;
    otherRules := otherRules o;
    pendingPromise := pendingPromise o;
    title := title o;
    description := description o;
    date := date o;
    preprocessed := preprocessed o;
    span := span o;
    mitmSgmodulePath := mitmSgmodulePath o;
    console := console o
  |}.

Definition set_otherRules {T} (v : list string) (o : RuleOutput T) : RuleOutput T :=
  {|
    id := id o;
    domainTrie := domainTrie o;
    sets := sets o;
    otherRules := v;
    pendingPromise := pendingPromise o;
    title := title o;
    description := description o;
    date := date o;
    preprocessed := preprocessed o;
    span := span o;
    mitmSgmodulePath := mitmSgmodulePath o;
    console := console o
  |}.

Definition set_pendingPromise {T} (v : option promise) (o : RuleOutput T) : RuleOutput T :=
  {|
    id := id o;
    domainTrie := domainTrie o;
    sets := sets o;
    otherRules := otherRules o;
    pendingPromise := v;
    title := title o;
    description := description o;
    date := date o;
    preprocessed := preprocessed o;
    span := span o;
    mitmSgmodulePath := mitmSgmodulePath o;
    console := console o
  |}.

Definition set_title {T} (v : option string) (o : RuleOutput T) : RuleOutput T :=
  {|
    id := id o;
    domainTrie := domainTrie o;
    sets := sets o;
    otherRules := otherRules o;
    pendingPromise := pendingPromise o;
    title := v;
    description := description o;
    date := date o;
    preprocessed := preprocessed o;
    span := span o;
    mitmSgmodulePath := mitmSgmodulePath o;
    console := console o
  |}.

Definition set_description {T} (v : option (list string)) (o : RuleOutput T) : RuleOutput T :=
  {|
    id := id o;
    domainTrie := domainTrie o;
    sets := sets o;
    otherRules := otherRules o;
    pendingPromise := pendingPromise o;
    title := title o;
    description := v;
    date := date o;
    preprocessed := preprocessed o;
    span := span o;
    mitmSgmodulePath := mitmSgmodulePath o;
    console := console o
  |}.

Definition set_date {T} (v : Z) (o : RuleOutput T) : RuleOutput T :=
  {|
    id := id o;
    domainTrie := domainTrie o;
    sets := sets o;
    otherRules := otherRules o;
    pendingPromise := pendingPromise o;
    title := title o;
    description := description o;
    date := v;
    preprocessed := preprocessed o;
    span := span o;
    mitmSgmodulePath := mitmSgmodulePath o;
    console := console o
  |}.

Definition set_preprocessed {T} (v : option T) (o : RuleOutput T) : RuleOutput T :=
  {|
    id := id o;
    domainTrie := domainTrie o;
    sets := sets o;
    otherRules := otherRules o;
    pendingPromise := pendingPromise o;
    title := title o;
    description := description o;
    date := date o;
    preprocessed := v;
    span := span o;
    mitmSgmodulePath := mitmSgmodulePath o;
    console := console o
  |}.

Definition set_span {T} (v : list string) (o : RuleOutput T) : RuleOutput T :=
  {|
    id := id o;
    domainTrie := domainTrie o;
    sets := sets o;
    otherRules := otherRules o;
    pendingPromise := pendingPromise o;
    title := title o;
    description := description o;
    date := date o;
    preprocessed := preprocessed o;
    span := v;
    mitmSgmodulePath := mitmSgmodulePath o;
    console := console o
  |}.

Definition set_mitmSgmodulePath {T} (v : option string) (o : RuleOutput T) : RuleOutput T :=
  {|
    id := id o;
    domainTrie := domainTrie o;
    sets := sets o;
    otherRules := otherRules o;
    pendingPromise := pendingPromise o;
    title := title o;
    description := description o;
    date := date o;
    preprocessed := preprocessed o;
    span := span o;
    mitmSgmodulePath := v;
    console := console o
  |}.

Definition set_console {T} (v : list string) (o : RuleOutput T) : RuleOutput T :=
  {|
    id := id o;
    domainTrie := domainTrie o;
    sets := sets o;
    otherRules := otherRules o;
    pendingPromise := pendingPromise o;
    title := title o;
    description := description o;
    date := date o;
    preprocessed := preprocessed o;
    span := span o;
    mitmSgmodulePath := mitmSgmodulePath o;
    console := v
  |}.
Definition newRuleOutput (T : Type) (id : string) (now : Z) : RuleOutput T :=
  {|
    id := id;
    domainTrie := [];
    sets := emptyBuckets;
    otherRules := [];
    pendingPromise := None;
    title := None;
    description := None;
    date := now;
    preprocessed := None;
    span := [];
    mitmSgmodulePath := None;
    console := []
  |}.

(** The abstract members a subclass provides.  [preprocess] may return
    [null] (its return type is [null] when [TPreprocessed] is); an absent
    [mitmSgmodule] is [None]. *)
Class Subclass (T : Type) : Type := {
  type : string;
  preprocess : RuleOutput T -> option T;
  surge : RuleOutput T -> list string;
  clash : RuleOutput T -> list string;
  singbox : RuleOutput T -> list string;
  mitmSgmodule : option (RuleOutput T -> option (list string))
}.

(** Imported names whose definitions are outside the file: the output
    roots of ../../constants/dir, [withBannerArray] of ../misc and
    [path.join]. *)
Class Collaborators : Type := {
  OUTPUT_SURGE_DIR : string;
  OUTPUT_CLASH_DIR : string;
  OUTPUT_SINGBOX_DIR : string;
  OUTPUT_MODULES_DIR : string;
  withBannerArray : string -> list string -> Z -> list string -> list string;
  path_join : list string -> string
}.

(* ----------------------------------------------------------------- *)
(** *** Methods as computations on the instance *)

(** A method body: it runs on the instance, may mutate it, and returns or
    throws; the instance it leaves is kept in both cases. *)
Definition M (S A : Type) : Type := S -> completion A * S.

Definition ret {S A : Type} (a : A) : M S A := fun s => (Normal a, s).

Definition bind {S A B : Type} (m : M S A) (k : A -> M S B) : M S B :=
  fun s =>
    match m s with
    | (Normal a, s') => k a s'
    | (Throw e, s') => (Throw e, s')
    end.

Definition throw {S A : Type} (error : string) : M S A := fun s => (Throw error, s).

Definition get {S : Type} : M S S := fun s => (Normal s, s).

Definition modify {S : Type} (f : S -> S) : M S unit := fun s => (Normal tt, f s).

Notation "x <- m ;; k" := (bind m (fun x => k))
  (at level 61, m at next level, right associativity).
Notation "m ;; k" := (bind m (fun _ => k))
  (at level 61, right associativity).

(** [invariant(value, message)] of foxts/guard: throws, with the message
    passed, when the value is null. *)
Definition invariant {S A : Type} (value : option A) (message : string) : M S A :=
  match value with
  | Some a => ret a
  | None => throw message
  end.

Definition default {A : Type} (given : option A) (d : A) : A :=
  match given with
  | Some a => a
  | None => d
  end.

(** One call of [compareAndWriteFile(span, linesA, filePath)]. *)
Record writeRequest : Type := mkWriteRequest {
  linesA : list string;
  filePath : string
}.

(** The argument of [write]; a field left out is [None]. *)
Record writeOptions : Type := mkWriteOptions {
  option_surge : option bool;
  option_clash : option bool;
  option_singbox : option bool;
  option_surgeDir : option string;
  option_clashDir : option string;
  option_singboxDir : option string
}.

Definition noOptions : writeOptions :=
  mkWriteOptions None None None None None None.

Section Methods.
Context {T : Type}.

(** [this.domainTrie.add(...args)] *)
Definition trieAdd (args : list jsarg) (o : RuleOutput T) : RuleOutput T :=
  set_domainTrie (domainTrie o ++ [TrieAdd args])%list o.

Definition whitelistDomain (domain : string) (o : RuleOutput T) : RuleOutput T :=
  set_domainTrie (domainTrie o ++ [TrieWhitelist domain])%list o.

(** [this.f.add(v)] for a set field [f]. *)
Definition setAdd (f : SetField) (v : jsval) (o : RuleOutput T) : RuleOutput T :=
  set_sets (updSet f (JSSet.add v) (sets o)) o.

(** [this.span.traceChild...(name, ...)] *)
Definition traceChild (name : string) (o : RuleOutput T) : RuleOutput T :=
  set_span (span o ++ [name])%list o.

Definition withTitle (t : string) (o : RuleOutput T) : RuleOutput T :=
  set_title (Some t) o.

Definition withDescription (d : list string) (o : RuleOutput T) : RuleOutput T :=
  set_description (Some d) o.

Definition withDate (d : Z) (o : RuleOutput T) : RuleOutput T :=
  set_date d o.


Definition bulkAddDomain (domains : list (option string)) (o : RuleOutput T)
  : RuleOutput T :=
  fold_left
    (fun o d =>
       match d with
       | Some d => trieAdd [ArgValue (str d); ArgBool false; ArgNull; ArgNumber 0] o
       | None => o
       end)
    domains o.

(** [addDomainSuffix(domain, lineFromDot)] with the second argument
    given. *)
Definition addDomainSuffix (domain : jsval) (lineFromDot : bool) (o : RuleOutput T)
  : RuleOutput T :=
  trieAdd [ArgValue domain; ArgBool true; ArgNumber (if lineFromDot then 1 else 0)] o.

(** [for (...) this.addDomainSuffix(domains[i])]: the second argument
    takes its default, [domain[0] === '.']. *)
Definition bulkAddDomainSuffix (domains : list string) (o : RuleOutput T)
  : RuleOutput T :=
  fold_left (fun o d => addDomainSuffix (str d) (char_is d 0 ".") o) domains o.

Definition addDomainKeyword (keyword : jsval) (o : RuleOutput T) : RuleOutput T :=
  setAdd DomainKeywords keyword o.

(** The body of the loop of [addFromDomainsetPromise]. *)
Definition domainsetLine (line : string) (o : RuleOutput T) : RuleOutput T :=
  if char_is line 0 "." then addDomainSuffix (str line) true o
  else trieAdd [ArgValue (str line); ArgBool false; ArgNull; ArgNumber 0] o.

Fixpoint addFromDomainsetPromise (source : list string) : M (RuleOutput T) unit :=
  match source with
  | [] => ret tt
  | line :: source' =>
      modify (domainsetLine line) ;; addFromDomainsetPromise source'
  end.

(** The body of the loop of [addFromRulesetPromise]. *)
Definition rulesetLine (line : string) : M (RuleOutput T) unit :=
  let splitted := split comma line in
  let type := array_get splitted 0 in
  let value := array_get splitted 1 in
  let arg := array_get splitted 2 in
  if strict_eq type "DOMAIN" then
    modify (trieAdd [ArgValue value; ArgBool false; ArgNull; ArgNumber 0])
  else if strict_eq type "DOMAIN-SUFFIX" then
    modify (addDomainSuffix value false)
  else if strict_eq type "DOMAIN-KEYWORD" then
    modify (addDomainKeyword value)
  else if strict_eq type "DOMAIN-WILDCARD" then
    modify (setAdd DomainWildcard value)
  else if strict_eq type "USER-AGENT" then
    modify (setAdd UserAgent value)
  else if strict_eq type "PROCESS-NAME" then
    match value with
    | undefined =>
        throw "TypeError: Cannot read properties of undefined (reading 'includes')"
    | str v =>
        if includes v (String slash "") || includes v (String backslash "") then
          modify (setAdd ProcessPath value)
        else
          modify (setAdd ProcessName value)
    end
  else if strict_eq type "URL-REGEX" then
    let rest := tl splitted in
    modify (setAdd UrlRegex (str (join "," rest)))
  else if strict_eq type "IP-CIDR" then
    modify (setAdd (if strict_eq arg "no-resolve" then IpcidrNoResolve else Ipcidr) value)
  else if strict_eq type "IP-CIDR6" then
    modify (setAdd (if strict_eq arg "no-resolve" then Ipcidr6NoResolve else Ipcidr6) value)
  else if strict_eq type "IP-ASN" then
    modify (setAdd (if strict_eq arg "no-resolve" then IpasnNoResolve else Ipasn) value)
  else if strict_eq type "GEOIP" then
    modify (setAdd (if strict_eq arg "no-resolve" then GroipNoResolve else Geoip) value)
  else if strict_eq type "SRC-IP" then
    modify (setAdd SourceIpOrCidr value)
  else if strict_eq type "SRC-PORT" then
    modify (setAdd SourcePort value)
  else if strict_eq type "DEST-PORT" then
    modify (setAdd DestPort value)
  else
    modify (fun o => set_otherRules (otherRules o ++ [line])%list o).

Fixpoint addFromRulesetPromise (source : list string) : M (RuleOutput T) unit :=
  match source with
  | [] => ret tt
  | line :: source' => rulesetLine line ;; addFromRulesetPromise source'
  end.

(** [(pendingPromise || Promise.resolve()).then(callback)] *)
Definition chain (pending : option promise) (callback : task) : promise :=
  match pending with
  | None => Queued [callback]
  | Some (Queued tasks) => Queued (tasks ++ [callback])%list
  | Some (Rejected error) => Rejected error
  end.

Definition addFromDomainset (source : list string) (o : RuleOutput T) : RuleOutput T :=
  set_pendingPromise (Some (chain (pendingPromise o) (DomainsetTask source))) o.

Definition addFromRuleset (source : list string) (o : RuleOutput T) : RuleOutput T :=
  set_pendingPromise (Some (chain (pendingPromise o) (RulesetTask source))) o.

Definition ipToCidr (ip : string) (version : Z) : string :=
  if includes ip "/" then ip
  else if version =? 4 then (ip ++ "/32")%string
  else (ip ++ "/128")%string.

Definition bulkAddCIDR4 (cidrs : list string) (o : RuleOutput T) : RuleOutput T :=
  fold_left (fun o cidr => setAdd Ipcidr (str (ipToCidr cidr 4)) o) cidrs o.

Definition bulkAddCIDR4NoResolve (cidrs : list string) (o : RuleOutput T)
  : RuleOutput T :=
  fold_left (fun o cidr => setAdd IpcidrNoResolve (str (ipToCidr cidr 4)) o) cidrs o.

Definition bulkAddCIDR6 (cidrs : list string) (o : RuleOutput T) : RuleOutput T :=
  fold_left (fun o cidr => setAdd Ipcidr6 (str (ipToCidr cidr 6)) o) cidrs o.

Definition bulkAddCIDR6NoResolve (cidrs : list string) (o : RuleOutput T)
  : RuleOutput T :=
  fold_left (fun o cidr => setAdd Ipcidr6NoResolve (str (ipToCidr cidr 6)) o) cidrs o.

Definition runTask (t : task) : M (RuleOutput T) unit :=
  match t with
  | DomainsetTask source => addFromDomainsetPromise source
  | RulesetTask source => addFromRulesetPromise source
  end.

Fixpoint runTasks (tasks : list task) : M (RuleOutput T) unit :=
  match tasks with
  | [] => ret tt
  | t :: tasks' => runTask t ;; runTasks tasks'
  end.

(** [await this.pendingPromise; this.pendingPromise = null].  The
    callbacks of the chain run, in order, while the chain is awaited; a
    callback that throws rejects the chain, and the assignment is not
    reached. *)
Definition done : M (RuleOutput T) unit :=
  fun o =>
    match pendingPromise o with
    | None => (Normal tt, set_pendingPromise None o)
    | Some (Queued tasks) =>
        match runTasks tasks o with
        | (Normal _, o') => (Normal tt, set_pendingPromise None o')
        | (Throw e, o') => (Throw e, set_pendingPromise (Some (Rejected e)) o')
        end
    | Some (Rejected e) => (Throw e, o)
    end.

Definition guardPendingPromise : M (RuleOutput T) unit :=
  fun o =>
    match pendingPromise o with
    | Some _ =>
        (Throw "You should call done() before calling this method",
         set_console (console o ++ ["Pending promise:"])%list o)
    | None => (Normal tt, o)
    end.

Definition withMitmSgmodulePath (path : option string) (o : RuleOutput T)
  : RuleOutput T :=
  match path with
  | Some p => if String.eqb p "" then o else set_mitmSgmodulePath (Some p) o
  | None => o
  end.

Context {subclass : Subclass T}.

Definition runPreprocess : M (RuleOutput T) unit :=
  o <- get ;;
  match preprocessed o with
  | None =>
      guardPendingPromise ;;
      modify (traceChild "preprocess") ;;
      modify (fun o => set_preprocessed (preprocess o) o)
  | Some _ => ret tt
  end.

(** [get $preprocessed()] *)
Definition get_preprocessed : M (RuleOutput T) (option T) :=
  runPreprocess ;;
  o <- get ;;
  ret (preprocessed o).

End Methods.

(* ================================================================= *)
(** ** Definitions used to state the properties *)

(** [fileEqual] unrolled over the lines of the candidate that are still
    to be compared; [fileEqual_loop_lockstep] below shows that the loop
    computes it. *)
Fixpoint lockstep (restA source : list string) : bool :=
  match restA, source with
  | [], [] => true
  | [], lineB :: _ => js_length lineB =? 0
  | _ :: _, [] => false
  | lineA :: restA', lineB :: source' =>
      match compareLine lineA lineB with
      | Continue => lockstep restA' source'
      | Return b => b
      end
  end.

(** The part of a line after its first comma, as the specification words
    the stored value of a URL-REGEX line. *)
Fixpoint afterFirstComma (line : string) : string :=
  match line with
  | EmptyString => EmptyString
  | String c line' => if Ascii.eqb c comma then line' else afterFirstComma line'
  end.

Definition contains (c : ascii) (s : string) : Prop := In c (list_ascii_of_string s).

(** The fields of a rule line, [TYPE,VALUE[,ARG]]. *)
Definition typeOf (line : string) : jsval := array_get (split comma line) 0.
Definition valueOf (line : string) : jsval := array_get (split comma line) 1.
Definition argOf (line : string) : jsval := array_get (split comma line) 2.

(** Where a rule line ends up, with what is stored there. *)
Inductive destination : Type :=
| ExactDomainTrie (domain : jsval)
| SuffixDomainTrie (domain : jsval)
| SetBucket (f : SetField) (v : jsval)
| OtherRules (line : string).

Definition hasPathSeparator (value : jsval) : bool :=
  match value with
  | str v =>
      existsb (fun c => Ascii.eqb c slash || Ascii.eqb c backslash)
              (list_ascii_of_string v)
  | undefined => false
  end.

Definition noResolve (arg : jsval) : bool := strict_eq arg "no-resolve".

(** The routing table of the specification, one row per supported TYPE
    token. *)
Definition routingTable : list (string * (string -> destination)) :=
  [ ("DOMAIN", fun line => ExactDomainTrie (valueOf line));
    ("DOMAIN-SUFFIX", fun line => SuffixDomainTrie (valueOf line));
    ("DOMAIN-KEYWORD", fun line => SetBucket DomainKeywords (valueOf line));
    ("DOMAIN-WILDCARD", fun line => SetBucket DomainWildcard (valueOf line));
    ("USER-AGENT", fun line => SetBucket UserAgent (valueOf line));
    ("URL-REGEX", fun line => SetBucket UrlRegex (str (afterFirstComma line)));
    ("PROCESS-NAME", fun line =>
       SetBucket (if hasPathSeparator (valueOf line) then ProcessPath else ProcessName)
                 (valueOf line));
    ("IP-CIDR", fun line =>
       SetBucket (if noResolve (argOf line) then IpcidrNoResolve else Ipcidr)
                 (valueOf line));
    ("IP-CIDR6", fun line =>
       SetBucket (if noResolve (argOf line) then Ipcidr6NoResolve else Ipcidr6)
                 (valueOf line));
    ("IP-ASN", fun line =>
       SetBucket (if noResolve (argOf line) then IpasnNoResolve else Ipasn)
                 (valueOf line));
    ("GEOIP", fun line =>
       SetBucket (if noResolve (argOf line) then GroipNoResolve else Geoip)
                 (valueOf line));
    ("SRC-IP", fun line => SetBucket SourceIpOrCidr (valueOf line));
    ("SRC-PORT", fun line => SetBucket SourcePort (valueOf line));
    ("DEST-PORT", fun line => SetBucket DestPort (valueOf line)) ].

Fixpoint lookupRoute (type : string) (table : list (string * (string -> destination)))
  : option (string -> destination) :=
  match table with
  | [] => None
  | (token, route) :: table' =>
      if String.eqb type token then Some route else lookupRoute type table'
  end.

Definition supported (line : string) : bool :=
  match typeOf line with
  | str type =>
      match lookupRoute type routingTable with Some _ => true | None => false end
  | undefined => false
  end.

(** A line of a supported type goes where its row says; any other line
    goes to [otherRules] as it is. *)
Definition specDestination (line : string) : destination :=
  match typeOf line with
  | str type =>
      match lookupRoute type routingTable with
      | Some route => route line
      | None => OtherRules line
      end
  | undefined => OtherRules line
  end.

(** [routedTo d o o']: between [o] and [o'] the bucket named by [d]
    received the payload of [d], at its end, and no other bucket
    changed. *)
Definition routedTo {T : Type} (d : destination) (o o' : RuleOutput T) : Prop :=
  match d with
  | ExactDomainTrie domain =>
      (exists call, domainTrie o' = (domainTrie o ++ [call])%list
                    /\ call = TrieAdd [ArgValue domain; ArgBool false; ArgNull; ArgNumber 0]
                    /\ isSuffix call = false)
      /\ sets o' = sets o /\ otherRules o' = otherRules o
  | SuffixDomainTrie domain =>
      (exists call, domainTrie o' = (domainTrie o ++ [call])%list
                    /\ call = TrieAdd [ArgValue domain; ArgBool true; ArgNumber 0]
                    /\ isSuffix call = true)
      /\ sets o' = sets o /\ otherRules o' = otherRules o
  | SetBucket f v =>
      getSet f (sets o') = JSSet.add v (getSet f (sets o))
      /\ (forall g, g <> f -> getSet g (sets o') = getSet g (sets o))
      /\ domainTrie o' = domainTrie o /\ otherRules o' = otherRules o
  | OtherRules line =>
      otherRules o' = (otherRules o ++ [line])%list
      /\ sets o' = sets o /\ domainTrie o' = domainTrie o
  end.

(** The lines of a source routed one after the other. *)
Fixpoint routedInOrder {T : Type} (ds : list destination) (o o' : RuleOutput T) : Prop :=
  match ds with
  | [] => sets o' = sets o /\ domainTrie o' = domainTrie o /\ otherRules o' = otherRules o
  | d :: ds' => exists o1, routedTo d o o1 /\ routedInOrder ds' o1 o'
  end.

(** A PROCESS-NAME line has a value field. *)
Definition valuePresentIfProcessName (line : string) : Prop :=
  typeOf line = str "PROCESS-NAME" -> valueOf line <> undefined.


(** A line of a domain set whose first character is a dot asks for a
    suffix rule starting one character in; any other line for an exact
    domain. *)
Definition dropFirst (line : string) : string :=
  match line with
  | EmptyString => EmptyString
  | String _ line' => line'
  end.

Definition domainsetCallFor (line : string) (call : trieCall) : Prop :=
  match String.get 0 line with
  | Some "."%char =>
      call = TrieAdd [ArgValue (str line); ArgBool true; ArgNumber 1]
      /\ isSuffix call = true /\ suffixStartOffset call = 1
      /\ storedDomain call = str (dropFirst line)
  | _ =>
      call = TrieAdd [ArgValue (str line); ArgBool false; ArgNull; ArgNumber 0]
      /\ isSuffix call = false /\ storedDomain call = str line
  end.

(** The mutation that puts the payload of [d] into the bucket [d]
    names. *)
Definition deliver {T : Type} (d : destination) (o : RuleOutput T) : RuleOutput T :=
  match d with
  | ExactDomainTrie domain =>
      trieAdd [ArgValue domain; ArgBool false; ArgNull; ArgNumber 0] o
  | SuffixDomainTrie domain =>
      trieAdd [ArgValue domain; ArgBool true; ArgNumber 0] o
  | SetBucket f v => setAdd f v o
  | OtherRules line => set_otherRules (otherRules o ++ [line])%list o
  end.

(** [addsNormalised f version cidrs o o']: set [f] of [o'] holds what it
    held in [o] and the entries of [cidrs] after [ipToCidr]; the other
    sets are as they were. *)
Definition addsNormalised {T : Type} (f : SetField) (version : Z) (cidrs : list string)
  (o o' : RuleOutput T) : Prop :=
  (forall v, JSSet.has v (getSet f (sets o')) = true
             <-> JSSet.has v (getSet f (sets o)) = true
                 \/ exists cidr, In cidr cidrs /\ v = str (ipToCidr cidr version))
  /\ (forall g, g <> f -> getSet g (sets o') = getSet g (sets o)).

(** The fields ingestion has no business with. *)
Definition sameMetadata {T : Type} (o o' : RuleOutput T) : Prop :=
  id o' = id o /\ title o' = title o /\ description o' = description o
  /\ date o' = date o /\ preprocessed o' = preprocessed o /\ span o' = span o
  /\ mitmSgmodulePath o' = mitmSgmodulePath o /\ console o' = console o.

(* ----------------------------------------------------------------- *)
(** *** Two subclasses and an environment to run the model on *)

(** A subclass whose preprocessed view is the list of unrecognised
    lines. *)
#[local] Instance passthroughView : Subclass (list string) := {|
  type := "non_ip";
  preprocess := fun o => Some (otherRules o);
  surge := fun o => otherRules o;
  clash := fun o => otherRules o;
  singbox := fun o => otherRules o;
  mitmSgmodule := None
|}.

(** A subclass with [TPreprocessed = null]. *)
#[local] Instance nullView : Subclass unit := {|
  type := "domainset";
  preprocess := fun _ => None;
  surge := fun o => otherRules o;
  clash := fun o => otherRules o;
  singbox := fun o => otherRules o;
  mitmSgmodule := None
|}.

(** Output roots and a banner to run [write] with. *)
#[local] Instance localDirs : Collaborators := {|
  OUTPUT_SURGE_DIR := "List";
  OUTPUT_CLASH_DIR := "Clash";
  OUTPUT_SINGBOX_DIR := "sing-box";
  OUTPUT_MODULES_DIR := "Modules";
  withBannerArray := fun title description _ content =>
    (("# " ++ title)%string :: map (fun d => ("# " ++ d)%string) description ++ content)%list;
  path_join := String.concat "/"
|}.

(** An instance that was read once after [done()] and then given more
    work: the second source is still pending. *)
Definition readThenFed : RuleOutput (list string) :=
  addFromRuleset ["DOMAIN-SUFFIX,example.com"]
    (snd (get_preprocessed
       (snd (done
          (addFromRuleset ["FOO,bar"] (newRuleOutput (list string) "demo" 0)))))).

(* ================================================================= *)
(** ** The rest of the file *)

(* ----------------------------------------------------------------- *)
(** *** domainWildCardToRegex *)

(** What the [switch] appends to [result] for one character. *)
Definition regexPiece (c : ascii) : string :=
  if Ascii.eqb c "." then "\."
  else if Ascii.eqb c "*" then "[\w.-]*?"
  else if Ascii.eqb c "?" then "[\w.-]"
  else String c "".

(** The [for] loop, entered with the [result] built so far. *)
Fixpoint domainWildCardToRegex_loop (domain : string) (result : string) : string :=
  match domain with
  | EmptyString => result
  | String c domain' =>
      domainWildCardToRegex_loop domain' (result ++ regexPiece c)
  end.

Definition domainWildCardToRegex (domain : string) : string :=
  domainWildCardToRegex_loop domain "^" ++ "$".

(** The pieces of a domain, one after the other. *)
Fixpoint regexBody (domain : string) : string :=
  match domain with
  | EmptyString => EmptyString
  | String c domain' => regexPiece c ++ regexBody domain'
  end.

(** A character the [switch] has a case for. *)
Definition wildcardChar (c : ascii) : bool :=
  Ascii.eqb c "." || Ascii.eqb c "*" || Ascii.eqb c "?".

(* ----------------------------------------------------------------- *)
(** *** compareAndWriteFile *)

Definition newline : string := String (ascii_of_nat 10) EmptyString.

(** The files there are, by path, with their content.  The file system
    is taken to work: the runs in which a read or a write fails are not
    followed. *)
Definition disk : Type := string -> option string.

(** Modelled from the spec: [writeFile] (../misc) is not among the
    sources; the specification has it perform one buffered write of the
    joined content, so the file at the path holds the content
    afterwards. *)
Definition writeFile (filePath content : string) (d : disk) : disk :=
  fun p => if String.eqb p filePath then Some content else d p.

(** A write stream of Node: the path it was created for, the chunks
    handed to it so far, in order, and whether [end()] was called.  Node
    keeps the chunks and puts them in the file later on. *)
Record writeStream : Type := mkWriteStream {
  streamPath : string;
  handed : string;
  ended : bool
}.

(** [fs.createWriteStream(filePath)] *)
Definition createWriteStream (filePath : string) : writeStream :=
  mkWriteStream filePath EmptyString false.

(** [asyncWriteToStream(writeStream, chunk)], with the wait that follows
    it when the chunk met back-pressure: the chunk is handed to the
    stream.  Neither tells that the chunk is in the file. *)
Definition asyncWriteToStream (stream : writeStream) (chunk : string) : writeStream :=
  mkWriteStream (streamPath stream) (handed stream ++ chunk) (ended stream).

(** [writeStream.end()] *)
Definition endStream (stream : writeStream) : writeStream :=
  mkWriteStream (streamPath stream) (handed stream) true.

(** The source does not wait for a stream to finish: what the file of a
    stream holds when [compareAndWriteFile] returns is not fixed by the
    program.  It is a parameter, given what the file held before and the
    stream as it was left. *)
Class StreamTiming : Type := {
  onDiskAtReturn : option string -> writeStream -> option string
}.

Definition leaveToStream {timing : StreamTiming} (stream : writeStream) (d : disk) : disk :=
  fun p =>
    if String.eqb p (streamPath stream) then onDiskAtReturn (d p) stream else d p.

(** What [compareAndWriteFile] acts on: the files, what was printed with
    [console.log], and the child spans opened on the span it is given. *)
Record world : Type := mkWorld {
  files : disk;
  stdout : list string;
  traces : list string
}.

Definition onFiles (f : disk -> disk) (w : world) : world :=
  {| files := f (files w); stdout := stdout w; traces := traces w |}.

Definition consoleLog (message : string) (w : world) : world :=
  {| files := files w; stdout := (stdout w ++ [message])%list; traces := traces w |}.

Definition traceChildAsync (name : string) (w : world) : world :=
  {| files := files w; stdout := stdout w; traces := (traces w ++ [name])%list |}.

(** [readFileByLine] (../fetch-text-by-line) is outside the file: the
    lines it yields for a file of a given content are a parameter. *)
Class LineReader : Type := {
  readFileByLine : string -> list string
}.

(** [for (let i = 0; i < linesALen; i++)] of the streaming branch. *)
Fixpoint streamLines (stream : writeStream) (linesA : list string) : writeStream :=
  match linesA with
  | [] => stream
  | line :: linesA' =>
      streamLines (asyncWriteToStream stream (line ++ newline)) linesA'
  end.

(** [compareAndWriteFile] up to the point where [isEqual] is known: the
    [compare] child span and the comparison. *)
Definition compareFile {reader : LineReader}
  (linesA : list string) (filePath : string) : M world bool :=
  modify (traceChildAsync ("compare " ++ filePath)) ;;
  w <- get ;;
  match files w filePath with
  | Some content => fun w => (fileEqual linesA (readFileByLine content), w)
  | None =>
      modify (consoleLog (filePath ++ " does not exists, writing...")) ;;
      ret false
  end.

(** [compareAndWriteFile] from [if (isEqual)] on. *)
Definition writeIfDifferent {timing : StreamTiming}
  (linesA : list string) (filePath : string) (isEqual : bool) : M world unit :=
  let linesALen := Z.of_nat (List.length linesA) in
  if isEqual then
    modify (consoleLog ("same content, bail out writing: " ++ filePath))
  else
    modify (traceChildAsync ("writing " ++ filePath)) ;;
    if linesALen <? 500 then
      modify (onFiles (writeFile filePath (join newline linesA ++ newline)))
    else
      let writeStream := createWriteStream filePath in
      let writeStream := streamLines writeStream linesA in
      let writeStream := endStream writeStream in
      modify (onFiles (leaveToStream writeStream)).

Definition compareAndWriteFile {reader : LineReader} {timing : StreamTiming}
  (linesA : list string) (filePath : string) : M world unit :=
  isEqual <- compareFile linesA filePath ;;
  writeIfDifferent linesA filePath isEqual.

(* ----------------------------------------------------------------- *)
(** *** writeClash and write *)

(** [Promise.all(promises)].  When it is reached every call of
    [compareAndWriteFile] has been made, one after the other, and has run
    up to its first wait: its [compare] span is open and its comparison
    under way.  In what order the comparisons complete, and so in what
    order the calls go on to print or to write, is not fixed by the
    program: it is a parameter, every call going on once, none being
    left out.  The files of the calls are taken to be
    different, so that a comparison does not depend on when its file is
    read. *)
Class Scheduler : Type := {
  completionOrder : list (writeRequest * bool) -> list (writeRequest * bool);
  completionOrder_all : forall calls, Permutation calls (completionOrder calls)
}.

Section Writing.
Context {T : Type}.

(** [write] and [writeClash] act on the instance and on the files.
    [compareAndWriteFile] is given [this.span], and prints to the
    console. *)
Definition asWorld (s : RuleOutput T * disk) : world :=
  {| files := snd s; stdout := console (fst s); traces := span (fst s) |}.

Definition ofWorld (o : RuleOutput T) (w : world) : RuleOutput T * disk :=
  (set_console (stdout w) (set_span (traces w) o), files w).

Definition onInstance {A : Type} (m : M (RuleOutput T) A) : M (RuleOutput T * disk) A :=
  fun s => let (r, o) := m (fst s) in (r, (o, snd s)).

Definition onWorld {A : Type} (m : M world A) : M (RuleOutput T * disk) A :=
  fun s => let (r, w) := m (asWorld s) in (r, ofWorld (fst s) w).

Context {subclass : Subclass T} {collaborators : Collaborators}.
Context {reader : LineReader} {timing : StreamTiming} {scheduler : Scheduler}.

Definition writeClash (outputDir : option string) : M (RuleOutput T * disk) unit :=
  onInstance done ;;
  o <- onInstance get ;;
  title' <- invariant (title o) "Missing title" ;;
  description' <- invariant (description o) "Missing description" ;;
  onWorld
    (compareAndWriteFile
       (withBannerArray title' description' (date o) (clash o))
       (path_join [default outputDir OUTPUT_CLASH_DIR; type; (id o ++ ".txt")%string])).

(** [promises.push(compareAndWriteFile(this.span, lines, path))]: the
    lines and the path are computed, the call is made and runs up to its
    first wait. *)
Definition pushCall (lines : RuleOutput T -> list string) (path : RuleOutput T -> string)
  (promises : list (writeRequest * bool))
  : M (RuleOutput T * disk) (list (writeRequest * bool)) :=
  o <- onInstance get ;;
  let request := {| linesA := lines o; filePath := path o |} in
  isEqual <- onWorld (compareFile (linesA request) (filePath request)) ;;
  ret (promises ++ [(request, isEqual)])%list.

(** The calls go on, in the order given. *)
Fixpoint resumeCalls (calls : list (writeRequest * bool)) : M (RuleOutput T * disk) unit :=
  match calls with
  | [] => ret tt
  | (request, isEqual) :: calls' =>
      onWorld (writeIfDifferent (linesA request) (filePath request) isEqual) ;;
      resumeCalls calls'
  end.

Definition write (options : writeOptions) : M (RuleOutput T * disk) unit :=
  let surge' := default (option_surge options) true in
  let clash' := default (option_clash options) true in
  let singbox' := default (option_singbox options) true in
  let surgeDir := default (option_surgeDir options) OUTPUT_SURGE_DIR in
  let clashDir := default (option_clashDir options) OUTPUT_CLASH_DIR in
  let singboxDir := default (option_singboxDir options) OUTPUT_SINGBOX_DIR in
  onInstance done ;;
  onInstance (modify (traceChild "write all")) ;;
  o <- onInstance get ;;
  title' <- invariant (title o) "Missing title" ;;
  description' <- invariant (description o) "Missing description" ;;
  let promises : list (writeRequest * bool) := [] in
  promises <-
    (if surge' then
       pushCall (fun o => withBannerArray title' description' (date o) (surge o))
                (fun o => path_join [surgeDir; type; (id o ++ ".conf")%string])
                promises
     else ret promises) ;;
  promises <-
    (if clash' then
       pushCall (fun o => withBannerArray title' description' (date o) (clash o))
                (fun o => path_join [clashDir; type; (id o ++ ".txt")%string])
                promises
     else ret promises) ;;
  promises <-
    (if singbox' then
       pushCall (fun o => singbox o)
                (fun o => path_join [singboxDir; type; (id o ++ ".json")%string])
                promises
     else ret promises) ;;
  promises <-
    match mitmSgmodule with
    | Some mitmSgmodule' =>
        o <- onInstance get ;;
        let sgmodule := mitmSgmodule' o in
        let sgModulePath :=
          default (mitmSgmodulePath o) (path_join [type; (id o ++ ".sgmodule")%string]) in
        match sgmodule with
        | Some lines =>
            pushCall (fun _ => lines)
                     (fun _ => path_join [OUTPUT_MODULES_DIR; sgModulePath])
                     promises
        | None => ret promises
        end
    | None => ret promises
    end ;;
  resumeCalls (completionOrder promises).

End Writing.

(** Every line followed by a newline. *)
Fixpoint terminated (lines : list string) : string :=
  match lines with
  | [] => EmptyString
  | line :: lines' => line ++ newline ++ terminated lines'
  end.

(** A reader that cuts a content at its newlines. *)
#[local] Instance newlineReader : LineReader := {|
  readFileByLine := split (ascii_of_nat 10)
|}.

(** A stream that has put everything in the file when the call
    returns. *)
#[local] Instance promptStream : StreamTiming := {|
  onDiskAtReturn := fun _ stream => Some (handed stream)
|}.

(** Comparisons that complete in the order of the calls. *)
#[local] Instance inCallOrder : Scheduler := {|
  completionOrder := fun calls => calls;
  completionOrder_all := fun calls => Permutation_refl calls
|}.



(* ----------------------------------------------------------------- *)
(** *** Definitions used to state further properties *)

(** The non-null entries of an array. *)
Definition nonNull (domains : list (option string)) : list string :=
  flat_map (fun d => match d with Some d => [d] | None => [] end) domains.

(** The lines of a source delivered one after the other. *)
Definition deliverAll {T : Type} (source : list string) (o : RuleOutput T)
  : RuleOutput T :=
  fold_left (fun o line => deliver (specDestination line) o) source o.

(* ================================================================= *)
(** ** Properties of fileEqual *)

Lemma array_get_str linesA index lineA :
  array_get linesA index = str lineA ->
  0 <= index < Z.of_nat (List.length linesA)
  /\ nth_error linesA (Z.to_nat index) = Some lineA.
Proof.
  unfold array_get. destruct (index <? 0) eqn:Hneg; [discriminate|].
  apply Z.ltb_ge in Hneg.
  destruct (nth_error linesA (Z.to_nat index)) eqn:Hnth; [|discriminate].
  intros [= ->]. split; [|reflexivity].
  assert (Hlt : (Z.to_nat index < List.length linesA)%nat).
  { apply nth_error_Some. congruence. }
  lia.
Qed.

Lemma array_get_in_range linesA index :
  0 <= index < Z.of_nat (List.length linesA) ->
  exists lineA, array_get linesA index = str lineA.
Proof.
  intros [Hlo Hhi]. unfold array_get.
  destruct (index <? 0) eqn:Hneg; [apply Z.ltb_lt in Hneg; lia|].
  destruct (nth_error linesA (Z.to_nat index)) eqn:Hnth; [eauto|].
  apply nth_error_None in Hnth. lia.
Qed.

Lemma js_length_zero s : (js_length s =? 0) = true <-> s = "".
Proof.
  unfold js_length. destruct s; simpl; split; intro H;
    reflexivity || discriminate.
Qed.

Lemma nat_of_ascii_is c n :
  (n < 256)%nat ->
  (Z.of_nat (nat_of_ascii c) =? Z.of_nat n) = Ascii.eqb c (ascii_of_nat n).
Proof.
  intro Hn. destruct (Ascii.eqb_spec c (ascii_of_nat n)) as [->|Hne].
  - rewrite nat_ascii_embedding by assumption. apply Z.eqb_refl.
  - apply Z.eqb_neq. intro Heq. apply Hne.
    apply Nat2Z.inj in Heq. rewrite <- Heq. symmetry. apply ascii_nat_embedding.
Qed.

(** The verdict of the loop body on two non-empty lines, by first
    characters. *)
Lemma compareLine_cons a lineA' b lineB' :
  compareLine (String a lineA') (String b lineB') =
  if negb (Ascii.eqb a b) then Return false
  else if Ascii.eqb a "#" then Continue
  else if Ascii.eqb a "!" then Continue
  else if Ascii.eqb a "/"
          && char_is (String a lineA') 1 "/" && char_is (String b lineB') 1 "/"
          && char_is (String a lineA') 3 "#" && char_is (String b lineB') 3 "#"
       then Continue
  else if negb (String.eqb (String a lineA') (String b lineB')) then Return false
  else Continue.
Proof.
  unfold compareLine.
  replace (js_length (String a lineA') =? 0) with false
    by (symmetry; apply Z.eqb_neq; unfold js_length; simpl; lia).
  replace (js_length (String b lineB') =? 0) with false
    by (symmetry; apply Z.eqb_neq; unfold js_length; simpl; lia).
  cbn [andb orb charCodeAt String.get num_strict_neq num_is].
  change 35 with (Z.of_nat 35). change 33 with (Z.of_nat 33).
  change 47 with (Z.of_nat 47).
  rewrite !(nat_of_ascii_is _ 35), !(nat_of_ascii_is _ 33),
    !(nat_of_ascii_is _ 47) by lia.
  change (ascii_of_nat 35) with "#"%char.
  change (ascii_of_nat 33) with "!"%char.
  change (ascii_of_nat 47) with "/"%char.
  destruct (Ascii.eqb_spec a b) as [<-|Hab].
  - replace (Z.of_nat (nat_of_ascii a) =? Z.of_nat (nat_of_ascii a)) with true
      by (symmetry; apply Z.eqb_refl).
    cbn [negb]. rewrite !andb_diag. reflexivity.
  - replace (Z.of_nat (nat_of_ascii a) =? Z.of_nat (nat_of_ascii b)) with false.
    + reflexivity.
    + symmetry. apply Z.eqb_neq. intro Heq. apply Hab.
      apply Nat2Z.inj in Heq.
      rewrite <- (ascii_nat_embedding a), <- (ascii_nat_embedding b).
      congruence.
Qed.

Lemma char_is_get s i c : char_is s i c = true <-> String.get i s = Some c.
Proof.
  unfold char_is. destruct (String.get i s) as [d|].
  - destruct (Ascii.eqb_spec d c); split; congruence.
  - split; discriminate.
Qed.

(** The loop body continues exactly on the pairs the specification calls
    equal. *)
Lemma compareLine_Continue lineA lineB :
  compareLine lineA lineB = Continue <-> linesEqualSpec lineA lineB.
Proof.
  unfold linesEqualSpec, startsWith, headerDivider.
  destruct lineA as [|a lineA'], lineB as [|b lineB'].
  - cbn. tauto.
  - cbn. split; [discriminate|].
    intros [[_ H]|[[H _]|[[H _]|[[[H _] _]|H]]]]; discriminate.
  - cbn. split; [discriminate|].
    intros [[H _]|[[_ H]|[[_ H]|[[_ [H _]]|H]]]]; discriminate.
  - rewrite compareLine_cons.
    destruct (Ascii.eqb_spec a b) as [<-|Hab]; cbn [negb].
    + destruct (Ascii.eqb_spec a "#") as [->|Hhash].
      { split; [|reflexivity]. intros _. right; left. split; reflexivity. }
      destruct (Ascii.eqb_spec a "!") as [->|Hbang].
      { split; [|reflexivity]. intros _. right; right; left. split; reflexivity. }
      destruct (Ascii.eqb a "/" && char_is (String a lineA') 1 "/"
                && char_is (String a lineB') 1 "/"
                && char_is (String a lineA') 3 "#"
                && char_is (String a lineB') 3 "#") eqn:Hdiv.
      { split; [|reflexivity]. intros _. right; right; right; left.
        repeat (apply andb_prop in Hdiv; destruct Hdiv as [Hdiv ?]).
        apply Ascii.eqb_eq in Hdiv. subst a.
        repeat match goal with H : char_is _ _ _ = true |- _ =>
          apply char_is_get in H end.
        repeat split; assumption. }
      destruct (String.eqb_spec (String a lineA') (String a lineB')) as [Heq|Hne];
        cbn [negb].
      { split; [|reflexivity]. intros _. repeat right. exact Heq. }
      split; [discriminate|].
      intros [[H _]|[[H _]|[[H _]|[[HA HB]|H]]]].
      * discriminate.
      * cbn in H. congruence.
      * cbn in H. congruence.
      * exfalso. destruct HA as (HA0 & HA1 & HA3), HB as (_ & HB1 & HB3).
        cbn in HA0. injection HA0 as ->.
        apply char_is_get in HA1, HA3, HB1, HB3.
        rewrite HA1, HB1, HA3, HB3 in Hdiv. discriminate.
      * contradiction.
    + split; [discriminate|].
      intros [[H _]|[[HA HB]|[[HA HB]|[[[HA _] [HB _]]|H]]]];
        try discriminate; cbn in *; congruence.
Qed.

(** Every exit of the loop body other than [continue] is [return false]. *)
Lemma compareLine_verdicts lineA lineB :
  compareLine lineA lineB = Continue \/ compareLine lineA lineB = Return false.
Proof.
  unfold compareLine.
  repeat match goal with |- context [if ?c then _ else _] => destruct c end;
    auto.
Qed.

Lemma compareLine_first_chars lineA lineB :
  String.get 0 lineA <> String.get 0 lineB ->
  compareLine lineA lineB = Return false.
Proof.
  destruct lineA as [|a lineA'], lineB as [|b lineB']; cbn [String.get];
    intro Hne; try reflexivity; try congruence.
  rewrite compareLine_cons.
  destruct (Ascii.eqb_spec a b) as [->|_]; [congruence|reflexivity].
Qed.

(** One in-range iteration of the loop. *)
Lemma fileEqual_loop_step linesA index lineA lineB source :
  array_get linesA (index + 1) = str lineA ->
  fileEqual_loop linesA index (lineB :: source) =
  match compareLine lineA lineB with
  | Continue => fileEqual_loop linesA (index + 1) source
  | Return b => Normal b
  end.
Proof.
  intro Hget. destruct (array_get_str _ _ _ Hget) as [Hrange _].
  cbn [fileEqual_loop].
  destruct (index + 1 >? Z.of_nat (List.length linesA) - 1) eqn:Hgt.
  - apply Z.gtb_lt in Hgt. lia.
  - rewrite Hget. reflexivity.
Qed.

(** C5: an empty candidate is never equal to any existing file. *)
Theorem empty_candidate_never_equal (source : list string) :
  fileEqual [] source = Normal false.
Proof. reflexivity. Qed.

(* ----------------------------------------------------------------- *)
(** *** The loop as a whole *)

Lemma array_get_middle (pre : list string) lineA restA :
  array_get (pre ++ lineA :: restA) (Z.of_nat (List.length pre)) = str lineA.
Proof.
  unfold array_get.
  destruct (Z.of_nat (List.length pre) <? 0) eqn:Hneg.
  - apply Z.ltb_lt in Hneg. lia.
  - rewrite Nat2Z.id, nth_error_app2 by lia.
    rewrite Nat.sub_diag. reflexivity.
Qed.

(** With [pre] compared and [restA] still to compare, the loop returns
    what [lockstep] computes; in particular it never throws. *)
Lemma fileEqual_loop_lockstep source : forall pre restA,
  fileEqual_loop (pre ++ restA) (Z.of_nat (List.length pre) - 1) source
  = Normal (lockstep restA source).
Proof.
  induction source as [|lineB source IH]; intros pre restA.
  - cbn [fileEqual_loop]. rewrite length_app, Nat2Z.inj_add.
    destruct restA as [|lineA restA]; cbn [lockstep List.length].
    + rewrite Z.add_0_r, Z.ltb_irrefl. reflexivity.
    + replace (_ <? _) with true; [reflexivity|].
      symmetry. apply Z.ltb_lt. lia.
  - cbn [fileEqual_loop].
    replace (Z.of_nat (List.length pre) - 1 + 1) with (Z.of_nat (List.length pre)) by lia.
    destruct restA as [|lineA restA].
    + rewrite app_nil_r. cbn [lockstep].
      replace (_ >? _) with true by (symmetry; apply Z.gtb_lt; lia).
      rewrite Z.eqb_refl. reflexivity.
    + replace (_ >? _) with false.
      2:{ symmetry. rewrite Z.gtb_ltb. apply Z.ltb_ge.
          rewrite length_app. cbn [List.length]. lia. }
      rewrite array_get_middle. cbn [lockstep].
      destruct (compareLine lineA lineB); [|reflexivity].
      specialize (IH (pre ++ [lineA])%list restA).
      rewrite <- app_assoc in IH. cbn [app] in IH.
      rewrite length_app in IH. cbn [List.length] in IH.
      replace (Z.of_nat (List.length pre + 1) - 1) with (Z.of_nat (List.length pre))
        in IH by lia.
      exact IH.
Qed.

(** fileEqual is total. *)
Lemma fileEqual_lockstep linesA source :
  fileEqual linesA source
  = Normal (match linesA with [] => false | _ => lockstep linesA source end).
Proof.
  unfold fileEqual. destruct linesA as [|lineA linesA]; [reflexivity|].
  replace (_ =? 0) with false by (symmetry; apply Z.eqb_neq; cbn [List.length]; lia).
  exact (fileEqual_loop_lockstep source [] (lineA :: linesA)).
Qed.

(** An existing file with fewer lines than the candidate is not equal to
    it. *)
Lemma fileEqual_fewer_lines linesA source :
  (List.length source < List.length linesA)%nat ->
  fileEqual linesA source = Normal false.
Proof.
  intro Hlen. rewrite fileEqual_lockstep. f_equal.
  destruct linesA as [|lineA0 linesA0]; [reflexivity|].
  remember (lineA0 :: linesA0) as linesA eqn:E. clear E lineA0 linesA0.
  revert source Hlen.
  induction linesA as [|lineA linesA IH]; intros source Hlen;
    [cbn in Hlen; lia|].
  destruct source as [|lineB source]; [reflexivity|].
  cbn [lockstep]. destruct (compareLine_verdicts lineA lineB) as [-> | ->];
    [|reflexivity].
  apply IH. cbn in Hlen. lia.
Qed.

(** Lines in equal number: the files are equal exactly when the lines are
    pairwise equal in the sense of the specification. *)
Lemma lockstep_same_length linesA source :
  List.length source = List.length linesA ->
  lockstep linesA source = true <-> Forall2 linesEqualSpec linesA source.
Proof.
  revert source. induction linesA as [|lineA linesA IH]; intros source Hlen.
  - destruct source; [|discriminate]. split; [constructor|reflexivity].
  - destruct source as [|lineB source]; [discriminate|].
    injection Hlen as Hlen. cbn [lockstep].
    destruct (compareLine_verdicts lineA lineB) as [Hc | Hr].
    + rewrite Hc. rewrite (IH _ Hlen). split.
      * intro H. constructor; [apply compareLine_Continue; exact Hc | exact H].
      * intro H. inversion H; assumption.
    + rewrite Hr. split; [discriminate|].
      intro H. inversion H as [|? ? ? ? Hspec _]; subst.
      apply compareLine_Continue in Hspec. congruence.
Qed.

(** An existing file with more lines than the candidate: only the first
    extra line is looked at. *)
Lemma lockstep_more_lines linesA head extra later :
  List.length head = List.length linesA ->
  lockstep linesA (head ++ extra :: later) = true
  <-> Forall2 linesEqualSpec linesA head /\ extra = "".
Proof.
  revert head. induction linesA as [|lineA linesA IH]; intros head Hlen.
  - destruct head; [|discriminate]. cbn [app lockstep].
    rewrite js_length_zero. split.
    + intro H. split; [constructor | exact H].
    + intros [_ H]. exact H.
  - destruct head as [|lineB head]; [discriminate|].
    injection Hlen as Hlen. cbn [app lockstep].
    destruct (compareLine_verdicts lineA lineB) as [Hc | Hr].
    + rewrite Hc. rewrite (IH _ Hlen). split.
      * intros [H He]. split; [|exact He].
        constructor; [apply compareLine_Continue; exact Hc | exact H].
      * intros [H He]. split; [|exact He]. inversion H; assumption.
    + rewrite Hr. split; [discriminate|].
      intros [H _]. inversion H as [|? ? ? ? Hspec _]; subst.
      apply compareLine_Continue in Hspec. congruence.
Qed.

(** The scenarios of the specification. *)
Example fileEqual_banner_ignored :
  fileEqual ["# banner v2"; "example.com"] ["# banner v1"; "example.com"] = Normal true.
Proof. reflexivity. Qed.

Example fileEqual_candidate_grew :
  fileEqual ["example.com"; "new.com"] ["example.com"] = Normal false.
Proof. reflexivity. Qed.

Example fileEqual_trailing_blanks :
  fileEqual ["example.com"] ["example.com"; ""; ""] = Normal true.
Proof. reflexivity. Qed.

(** C1: with the candidate [example.com] and the existing file
    [example.com], an empty line, [stale.example.org], fileEqual answers
    true: it returns at the first extra line and never reads the
    non-empty line after it. *)
Theorem fileEqual_returns_at_first_extra_line :
  fileEqual ["example.com"] ["example.com"; ""; "stale.example.org"] = Normal true.
Proof. reflexivity. Qed.

(* ================================================================= *)
(** ** Properties of the containers *)

Lemma jsval_eqb_spec a b : reflect (a = b) (jsval_eqb a b).
Proof.
  destruct a as [|x], b as [|y]; cbn; try (constructor; congruence).
  destruct (String.eqb_spec x y); constructor; congruence.
Qed.

Lemma jsval_eqb_refl a : jsval_eqb a a = true.
Proof. destruct (jsval_eqb_spec a a); congruence. Qed.


Lemma JSSet_has_add w v s :
  JSSet.has w (JSSet.add v s) = JSSet.has w s || jsval_eqb w v.
Proof.
  unfold JSSet.add. destruct (JSSet.has v s) eqn:Hv.
  - destruct (jsval_eqb_spec w v) as [->|_].
    + rewrite Hv. reflexivity.
    + rewrite orb_false_r. reflexivity.
  - unfold JSSet.has. rewrite existsb_app. cbn [existsb]. rewrite orb_false_r.
    reflexivity.
Qed.

(** Adding a value that is already there changes nothing. *)
Lemma JSSet_add_idempotent v s : JSSet.add v (JSSet.add v s) = JSSet.add v s.
Proof.
  unfold JSSet.add at 1. rewrite JSSet_has_add, jsval_eqb_refl, orb_true_r.
  reflexivity.
Qed.


Lemma SetField_eqb_spec f g : reflect (f = g) (SetField_eqb f g).
Proof. destruct f, g; constructor; congruence. Qed.

Lemma getSet_updSet f g update b :
  getSet g (updSet f update b) = updateIf f g update (getSet g b).
Proof. destruct g; reflexivity. Qed.

Lemma getSet_updSet_same f update b :
  getSet f (updSet f update b) = update (getSet f b).
Proof.
  rewrite getSet_updSet. unfold updateIf.
  destruct (SetField_eqb_spec f f); congruence.
Qed.

Lemma getSet_updSet_other f g update b :
  g <> f -> getSet g (updSet f update b) = getSet g b.
Proof.
  intro Hne. rewrite getSet_updSet. unfold updateIf.
  destruct (SetField_eqb_spec f g); congruence.
Qed.

Lemma Buckets_ext b b' : (forall f, getSet f b = getSet f b') -> b = b'.
Proof.
  intro H. destruct b, b'.
  pose proof (H DomainKeywords). pose proof (H DomainWildcard).
  pose proof (H UserAgent). pose proof (H ProcessName). pose proof (H ProcessPath).
  pose proof (H UrlRegex). pose proof (H Ipcidr). pose proof (H IpcidrNoResolve).
  pose proof (H Ipasn). pose proof (H IpasnNoResolve). pose proof (H Ipcidr6).
  pose proof (H Ipcidr6NoResolve). pose proof (H Geoip). pose proof (H GroipNoResolve).
  pose proof (H SourceIpOrCidr). pose proof (H SourcePort). pose proof (H DestPort).
  clear H. cbn in *. subst. reflexivity.
Qed.

Section ContainerFacts.
Context {T : Type}.
Implicit Types o : RuleOutput T.


Lemma getSet_setAdd_same f v o :
  getSet f (sets (setAdd f v o)) = JSSet.add v (getSet f (sets o)).
Proof. unfold setAdd. cbn [sets set_sets]. apply getSet_updSet_same. Qed.

Lemma getSet_setAdd_other f g v o :
  g <> f -> getSet g (sets (setAdd f v o)) = getSet g (sets o).
Proof. unfold setAdd. cbn [sets set_sets]. apply getSet_updSet_other. Qed.

Lemma setAdd_idempotent f v o : setAdd f v (setAdd f v o) = setAdd f v o.
Proof.
  unfold setAdd.
  change (set_sets ?b (set_sets ?c o)) with (set_sets b o).
  change (sets (set_sets ?c o)) with c.
  f_equal. apply Buckets_ext. intro g. rewrite !getSet_updSet. unfold updateIf.
  destruct (SetField_eqb f g); [apply JSSet_add_idempotent | reflexivity].
Qed.

End ContainerFacts.

(* ================================================================= *)
(** ** Properties of the string primitives *)

Lemma includes_single v c :
  includes v (String c "") = existsb (fun d => Ascii.eqb d c) (list_ascii_of_string v).
Proof.
  induction v as [|d v IH]; [reflexivity|].
  cbn [includes String.prefix list_ascii_of_string existsb]. rewrite IH. f_equal.
  destruct (ascii_dec c d) as [->|Hne].
  - rewrite Ascii.eqb_refl. destruct v; reflexivity.
  - symmetry. apply Ascii.eqb_neq. congruence.
Qed.

Lemma includes_contains v c : includes v (String c "") = true <-> contains c v.
Proof.
  rewrite includes_single, existsb_exists. unfold contains. split.
  - intros (d & Hin & Heq). apply Ascii.eqb_eq in Heq. congruence.
  - intro Hin. exists c. split; [exact Hin | apply Ascii.eqb_refl].
Qed.

Lemma includes_separator v :
  includes v (String slash "") || includes v (String backslash "")
  = hasPathSeparator (str v).
Proof.
  rewrite !includes_single. cbn [hasPathSeparator].
  induction (list_ascii_of_string v) as [|d l IH]; [reflexivity|].
  cbn [existsb]. rewrite <- IH.
  destruct (Ascii.eqb d slash), (Ascii.eqb d backslash),
    (existsb (fun d => Ascii.eqb d slash) l),
    (existsb (fun d => Ascii.eqb d backslash) l); reflexivity.
Qed.

Lemma split_not_nil sep s : split sep s <> [].
Proof.
  destruct s as [|c s]; cbn [split]; [discriminate|].
  destruct (Ascii.eqb c sep); [discriminate|].
  destruct (split sep s); discriminate.
Qed.

(** Joining what [split] produced gives the string back. *)
Lemma join_split s : join "," (split comma s) = s.
Proof.
  unfold join. induction s as [|c s IH]; [reflexivity|].
  cbn [split]. destruct (Ascii.eqb_spec c comma) as [->|Hne].
  - destruct (split comma s) as [|field fields] eqn:E;
      [exfalso; exact (split_not_nil _ _ E)|].
    change (String.concat "," ("" :: field :: fields))
      with ("," ++ String.concat "," (field :: fields))%string.
    rewrite IH. reflexivity.
  - destruct (split comma s) as [|field fields] eqn:E;
      [exfalso; exact (split_not_nil _ _ E)|].
    destruct fields as [|field' fields].
    + cbn in *. rewrite IH. reflexivity.
    + change (String.concat "," (String c field :: field' :: fields))
        with (String c (String.concat "," (field :: field' :: fields))).
      rewrite IH. reflexivity.
Qed.

(** The fields after the first, joined again, are the line after its
    first comma. *)
Lemma join_rest_split line :
  join "," (tl (split comma line)) = afterFirstComma line.
Proof.
  induction line as [|c line IH]; [reflexivity|].
  cbn [split afterFirstComma]. destruct (Ascii.eqb c comma).
  - cbn [tl]. apply join_split.
  - destruct (split comma line) as [|field fields] eqn:E;
      [exfalso; exact (split_not_nil _ _ E)|].
    exact IH.
Qed.

Lemma typeOf_str line : exists type, typeOf line = str type.
Proof.
  unfold typeOf. destruct (split comma line) as [|field fields] eqn:E;
    [exfalso; exact (split_not_nil _ _ E)|].
  exists field. reflexivity.
Qed.

(* ================================================================= *)
(** ** Properties of classification *)

Section Classification.
Context {T : Type}.
Implicit Types o : RuleOutput T.

Lemma routedTo_deliver d o : routedTo d o (deliver d o).
Proof.
  destruct d as [domain|domain|f v|line]; cbn [routedTo deliver].
  - split; [|split; reflexivity]. eexists. repeat split.
  - split; [|split; reflexivity]. eexists. repeat split.
  - split; [apply getSet_setAdd_same|].
    split; [intros g Hg; apply getSet_setAdd_other; exact Hg|].
    split; reflexivity.
  - repeat split.
Qed.

(** What a line does to the instance: it is delivered where the routing
    table says, or, for a PROCESS-NAME line without a value, the read of
    [value.includes] throws and the instance is left as it was. *)
Lemma rulesetLine_deliver line o :
  rulesetLine line o = (Normal tt, deliver (specDestination line) o)
  \/ (typeOf line = str "PROCESS-NAME" /\ valueOf line = undefined
      /\ rulesetLine line o
         = (Throw "TypeError: Cannot read properties of undefined (reading 'includes')",
            o)).
Proof.
  destruct (typeOf_str line) as [type Htype].
  unfold specDestination, rulesetLine. cbv zeta.
  change (array_get (split comma line) 0) with (typeOf line).
  change (array_get (split comma line) 1) with (valueOf line).
  change (array_get (split comma line) 2) with (argOf line).
  rewrite Htype. unfold strict_eq, noResolve.
  cbn [jsval_eqb lookupRoute routingTable].
  repeat match goal with
         | |- context [String.eqb type ?token] =>
             destruct (String.eqb_spec type token) as [->|?]
         end;
    try (left; cbv beta iota; unfold noResolve, strict_eq; cbn [deliver];
         try destruct (jsval_eqb (argOf line) (str "no-resolve")); reflexivity).
  - (* PROCESS-NAME *)
    change ("PROCESS-NAME" =? "URL-REGEX")%string with false. cbv beta iota.
    destruct (valueOf line) as [|v] eqn:Hvalue.
    + right. repeat split.
    + left. rewrite includes_separator.
      destruct (hasPathSeparator (str v)); reflexivity.
  - (* URL-REGEX *)
    left. cbn [deliver]. rewrite join_rest_split. reflexivity.
Qed.

End Classification.

Section Ingestion.
Context {T : Type}.
Implicit Types o : RuleOutput T.

Lemma deliver_sameMetadata d o :
  sameMetadata o (deliver d o) /\ pendingPromise (deliver d o) = pendingPromise o.
Proof. destruct d; repeat split. Qed.


Lemma unsupported_destination line :
  supported line = false -> specDestination line = OtherRules line.
Proof.
  unfold supported, specDestination. destruct (typeOf line) as [|type]; [reflexivity|].
  destruct (lookupRoute type routingTable); [discriminate|reflexivity].
Qed.

Lemma supported_destination line o :
  supported line = true -> otherRules (deliver (specDestination line) o) = otherRules o.
Proof.
  unfold supported, specDestination. destruct (typeOf line) as [|type]; [discriminate|].
  cbn [lookupRoute routingTable].
  repeat match goal with
         | |- context [String.eqb type ?token] => destruct (String.eqb type token)
         end;
    intro; try discriminate; reflexivity.
Qed.

Lemma otherRules_deliver line o :
  otherRules (deliver (specDestination line) o)
  = (otherRules o ++ (if supported line then [] else [line]))%list.
Proof.
  destruct (supported line) eqn:E.
  - rewrite (supported_destination _ _ E), app_nil_r. reflexivity.
  - rewrite (unsupported_destination _ E). reflexivity.
Qed.

Lemma routedInOrder_nil o : routedInOrder [] o o.
Proof. repeat split. Qed.

(** Every line with the value it needs is routed, in source order, and
    the ingestion returns. *)
Lemma addFromRulesetPromise_routes source : forall o,
  Forall valuePresentIfProcessName source ->
  exists o',
    addFromRulesetPromise source o = (Normal tt, o')
    /\ routedInOrder (map specDestination source) o o'
    /\ otherRules o'
       = (otherRules o ++ filter (fun line => negb (supported line)) source)%list.
Proof.
  induction source as [|line source IH]; intros o Hok.
  - exists o. split; [reflexivity|]. split; [apply routedInOrder_nil|].
    cbn. rewrite app_nil_r. reflexivity.
  - inversion Hok as [|? ? Hline Hrest]; subst.
    destruct (rulesetLine_deliver line o) as [Hstep | (Htype & Hvalue & _)].
    2:{ exfalso. exact (Hline Htype Hvalue). }
    destruct (IH (deliver (specDestination line) o) Hrest) as (o' & Hrun & Hrouted & Hother).
    exists o'. split; [|split].
    + cbn [addFromRulesetPromise]. unfold bind. rewrite Hstep. exact Hrun.
    + cbn [map routedInOrder]. eexists. split; [apply routedTo_deliver | exact Hrouted].
    + rewrite Hother, otherRules_deliver. cbn [filter].
      destruct (supported line); cbn [negb app]; rewrite <- app_assoc; reflexivity.
Qed.


Lemma addFromRulesetPromise_sameMetadata source : forall o o' r,
  addFromRulesetPromise source o = (r, o') ->
  sameMetadata o o' /\ pendingPromise o' = pendingPromise o.
Proof.
  induction source as [|line source IH]; intros o o' r Hrun.
  - injection Hrun as _ <-. repeat split.
  - cbn [addFromRulesetPromise] in Hrun. unfold bind in Hrun.
    destruct (rulesetLine_deliver line o) as [Hstep | (_ & _ & Hstep)];
      rewrite Hstep in Hrun.
    + destruct (deliver_sameMetadata (specDestination line) o) as [Hm Hp].
      destruct (IH _ _ _ Hrun) as [Hm' Hp'].
      unfold sameMetadata in *. intuition congruence.
    + injection Hrun as _ <-. repeat split.
Qed.

Lemma bulk_adds_normalised f version cidrs : forall o,
  addsNormalised f version cidrs o
    (fold_left (fun o cidr => setAdd f (str (ipToCidr cidr version)) o) cidrs o).
Proof.
  induction cidrs as [|cidr cidrs IH]; intro o; cbn [fold_left].
  - split; [|reflexivity]. intro v. split; [tauto|].
    intros [H|(c & [] & _)]. exact H.
  - destruct (IH (setAdd f (str (ipToCidr cidr version)) o)) as [Hin Hout].
    split.
    + intro v. rewrite Hin, getSet_setAdd_same, JSSet_has_add, orb_true_iff.
      split.
      * intros [[H|H]|(c & Hc & Hv)].
        -- left. exact H.
        -- right. exists cidr. split; [left; reflexivity|].
           destruct (jsval_eqb_spec v (str (ipToCidr cidr version))); congruence.
        -- right. exists c. split; [right; exact Hc | exact Hv].
      * intros [H|(c & [<-|Hc] & Hv)].
        -- left. left. exact H.
        -- left. right. subst v. apply jsval_eqb_refl.
        -- right. exists c. split; assumption.
    + intros g Hg. rewrite (Hout g Hg). apply getSet_setAdd_other. exact Hg.
Qed.

End Ingestion.

(* ================================================================= *)
(** ** The accumulator's buckets *)

(** C4 (as amended): when every PROCESS-NAME line of the source has a
    value field, the ingestion returns, each line went to the one bucket
    its row of the routing table names and changed no other, and
    [otherRules] grew by the lines of unrecognised type, as they are and
    in source order. *)
Theorem ruleset_lines_are_routed_to_one_bucket {T : Type}
  (source : list string) (o : RuleOutput T) :
  Forall valuePresentIfProcessName source ->
  exists o',
    addFromRulesetPromise source o = (Normal tt, o')
    /\ routedInOrder (map specDestination source) o o'
    /\ otherRules o'
       = (otherRules o ++ filter (fun line => negb (supported line)) source)%list.
Proof. apply addFromRulesetPromise_routes. Qed.

Lemma ruleset_lines_are_routed_to_one_bucket_witness :
  exists o',
    addFromRulesetPromise
      ["DOMAIN,example.com"; "PROCESS-NAME,/usr/bin/curl"; "IP-CIDR,1.2.3.0/24,no-resolve";
       "FINAL,DIRECT"; "GEOIP,CN"]
      (newRuleOutput unit "demo" 0) = (Normal tt, o')
    /\ routedInOrder
         (map specDestination
            ["DOMAIN,example.com"; "PROCESS-NAME,/usr/bin/curl";
             "IP-CIDR,1.2.3.0/24,no-resolve"; "FINAL,DIRECT"; "GEOIP,CN"])
         (newRuleOutput unit "demo" 0) o'
    /\ otherRules o'
       = (otherRules (newRuleOutput unit "demo" 0)
          ++ filter (fun line => negb (supported line))
               ["DOMAIN,example.com"; "PROCESS-NAME,/usr/bin/curl";
                "IP-CIDR,1.2.3.0/24,no-resolve"; "FINAL,DIRECT"; "GEOIP,CN"])%list.
Proof.
  apply (ruleset_lines_are_routed_to_one_bucket
           ["DOMAIN,example.com"; "PROCESS-NAME,/usr/bin/curl";
            "IP-CIDR,1.2.3.0/24,no-resolve"; "FINAL,DIRECT"; "GEOIP,CN"]
           (newRuleOutput unit "demo" 0)).
  repeat constructor; intro Htype; vm_compute; discriminate.
Defined.

(** C4, as stated, fails: the line [PROCESS-NAME] is of a supported type,
    yet reading [value.includes] throws, nothing is stored, and the lines
    after it are not read. *)
Lemma process_name_without_value_is_not_routed :
  supported "PROCESS-NAME" = true
  /\ rulesetLine "PROCESS-NAME" (newRuleOutput unit "demo" 0)
     = (Throw "TypeError: Cannot read properties of undefined (reading 'includes')",
        newRuleOutput unit "demo" 0)
  /\ addFromRulesetPromise ["PROCESS-NAME"; "DOMAIN-KEYWORD,example"]
       (newRuleOutput unit "demo" 0)
     = (Throw "TypeError: Cannot read properties of undefined (reading 'includes')",
        newRuleOutput unit "demo" 0).
Proof. repeat split. Qed.


(** C8: [ipToCidr] gives back an input that contains a slash, and
    otherwise appends [/32] for version 4 and [/128] for version 6; each
    of the four bulk adders stores its entries after this normalisation,
    in its own set and in no other. *)
Theorem cidr_adders_normalise {T : Type} :
  (forall ip version, contains slash ip -> ipToCidr ip version = ip)
  /\ (forall ip, ~ contains slash ip ->
        ipToCidr ip 4 = (ip ++ "/32")%string /\ ipToCidr ip 6 = (ip ++ "/128")%string)
  /\ (forall cidrs (o : RuleOutput T),
        addsNormalised Ipcidr 4 cidrs o (bulkAddCIDR4 cidrs o)
        /\ addsNormalised IpcidrNoResolve 4 cidrs o (bulkAddCIDR4NoResolve cidrs o)
        /\ addsNormalised Ipcidr6 6 cidrs o (bulkAddCIDR6 cidrs o)
        /\ addsNormalised Ipcidr6NoResolve 6 cidrs o (bulkAddCIDR6NoResolve cidrs o)).
Proof.
  split; [|split].
  - intros ip version Hslash. unfold ipToCidr.
    apply includes_contains in Hslash. fold slash. rewrite Hslash. reflexivity.
  - intros ip Hslash. unfold ipToCidr.
    destruct (includes ip "/") eqn:E.
    + exfalso. apply Hslash. apply includes_contains. exact E.
    + split; reflexivity.
  - intros cidrs o. repeat split; apply bulk_adds_normalised.
Qed.

Lemma cidr_adders_normalise_witness :
  ipToCidr "1.2.3.0/24" 4 = "1.2.3.0/24"
  /\ ipToCidr "1.2.3.4" 4 = "1.2.3.4/32"
  /\ ipToCidr "::1" 6 = "::1/128".
Proof.
  split; [|split].
  - apply (proj1 (@cidr_adders_normalise unit)). vm_compute. tauto.
  - apply (proj1 (proj2 (@cidr_adders_normalise unit)) "1.2.3.4").
    vm_compute. intuition discriminate.
  - apply (proj1 (proj2 (@cidr_adders_normalise unit)) "::1").
    vm_compute. intuition discriminate.
Defined.

(* ================================================================= *)
(** ** Domain sets *)

Lemma substring_whole s : String.substring 0 (String.length s) s = s.
Proof. induction s as [|c s IH]; cbn; [reflexivity | rewrite IH; reflexivity]. Qed.

Lemma domainsetLine_call {T : Type} line (o : RuleOutput T) :
  exists call,
    domainsetLine line o = set_domainTrie (domainTrie o ++ [call])%list o
    /\ domainsetCallFor line call.
Proof.
  unfold domainsetLine, domainsetCallFor, char_is.
  destruct line as [|c line]; cbn [String.get].
  - eexists. split; [reflexivity|]. repeat split.
  - destruct (Ascii.eqb_spec c ".") as [->|Hne].
    + eexists. split; [reflexivity|]. repeat split.
      cbn [storedDomain suffixStartOffset]. change (Z.to_nat 1) with 1%nat.
      cbn [String.length Nat.sub String.substring dropFirst].
      rewrite Nat.sub_0_r, substring_whole. reflexivity.
    + eexists. split; [reflexivity|].
      destruct c as [[] [] [] [] [] [] [] []];
        try (repeat split; cbn [storedDomain suffixStartOffset];
             change (Z.to_nat 0) with 0%nat;
             rewrite Nat.sub_0_r, substring_whole; reflexivity).
      exfalso. apply Hne. reflexivity.
Qed.

(** C10: ingesting a domain set returns; the delegate receives one call
    per line, in order: for a line whose first character is a dot, a
    suffix rule whose boundary starts one character in, so that the name
    kept is the line without its dot; for any other line, an exact
    domain.  No set and no passthrough line is touched. *)
Theorem domainset_lines_become_trie_calls {T : Type}
  (source : list string) (o : RuleOutput T) :
  exists calls o',
    addFromDomainsetPromise source o = (Normal tt, o')
    /\ domainTrie o' = (domainTrie o ++ calls)%list
    /\ Forall2 domainsetCallFor source calls
    /\ sets o' = sets o /\ otherRules o' = otherRules o.
Proof.
  revert o. induction source as [|line source IH]; intro o.
  - exists [], o. rewrite app_nil_r. repeat split. constructor.
  - destruct (domainsetLine_call line o) as (call & Hstep & Hcall).
    destruct (IH (domainsetLine line o)) as (calls & o' & Hrun & Htrie & Hcalls & Hsets & Hother).
    exists (call :: calls), o'. split; [|split; [|split; [|split]]].
    + cbn [addFromDomainsetPromise]. unfold bind, modify. exact Hrun.
    + rewrite Htrie, Hstep. cbn [domainTrie set_domainTrie].
      rewrite <- app_assoc. reflexivity.
    + constructor; assumption.
    + rewrite Hsets, Hstep. reflexivity.
    + rewrite Hother, Hstep. reflexivity.
Qed.

Example domainset_dot_line :
  domainTrie (snd (addFromDomainsetPromise [".example.com"; "example.org"]
                     (newRuleOutput unit "demo" 0)))
  = [ TrieAdd [ArgValue (str ".example.com"); ArgBool true; ArgNumber 1];
      TrieAdd [ArgValue (str "example.org"); ArgBool false; ArgNull; ArgNumber 0] ]
  /\ storedDomain (TrieAdd [ArgValue (str ".example.com"); ArgBool true; ArgNumber 1])
     = str "example.com".
Proof. split; reflexivity. Qed.

(* ================================================================= *)
(** ** The barrier, the preprocessed view and writing *)

Section Barrier.
Context {T : Type}.
Implicit Types o : RuleOutput T.

Lemma addFromDomainsetPromise_sameMetadata source : forall o o' r,
  addFromDomainsetPromise source o = (r, o') ->
  sameMetadata o o' /\ pendingPromise o' = pendingPromise o.
Proof.
  induction source as [|line source IH]; intros o o' r Hrun.
  - injection Hrun as _ <-. repeat split.
  - cbn [addFromDomainsetPromise] in Hrun. unfold bind, modify in Hrun.
    destruct (IH _ _ _ Hrun) as [Hm Hp].
    assert (Hstep : sameMetadata o (domainsetLine line o)
                    /\ pendingPromise (domainsetLine line o) = pendingPromise o).
    { unfold domainsetLine. destruct (char_is line 0 "."); repeat split. }
    destruct Hstep as [Hm' Hp']. unfold sameMetadata in *. intuition congruence.
Qed.

Lemma runTasks_sameMetadata tasks : forall o o' r,
  runTasks tasks o = (r, o') ->
  sameMetadata o o' /\ pendingPromise o' = pendingPromise o.
Proof.
  induction tasks as [|t tasks IH]; intros o o' r Hrun.
  - injection Hrun as _ <-. repeat split.
  - cbn [runTasks] in Hrun. unfold bind in Hrun.
    destruct (runTask t o) as [[[]|e] o1] eqn:Htask.
    + assert (Hstep : sameMetadata o o1 /\ pendingPromise o1 = pendingPromise o).
      { destruct t; cbn [runTask] in Htask;
          [eapply addFromDomainsetPromise_sameMetadata
          |eapply addFromRulesetPromise_sameMetadata]; exact Htask. }
      destruct (IH _ _ _ Hrun) as [Hm Hp]. destruct Hstep as [Hm' Hp'].
      unfold sameMetadata in *. intuition congruence.
    + injection Hrun as _ <-.
      destruct t; cbn [runTask] in Htask;
        [eapply addFromDomainsetPromise_sameMetadata
        |eapply addFromRulesetPromise_sameMetadata]; exact Htask.
Qed.

(** The barrier leaves title, description and the cached view alone. *)
Lemma done_sameMetadata o o' r : done o = (r, o') -> sameMetadata o o'.
Proof.
  unfold done. destruct (pendingPromise o) as [[tasks|e]|].
  - destruct (runTasks tasks o) as [[[]|e] o1] eqn:Hrun;
      intro H; injection H as _ <-;
      destruct (runTasks_sameMetadata _ _ _ _ Hrun) as [Hm _];
      unfold sameMetadata in *; cbn; exact Hm.
  - intro H. injection H as _ <-. repeat split.
  - intro H. injection H as _ <-. repeat split.
Qed.

Context {subclass : Subclass T}.

(** A read with a view in the cache returns it and does nothing else. *)
Lemma get_preprocessed_cached o view :
  preprocessed o = Some view -> get_preprocessed o = (Normal (Some view), o).
Proof.
  intro Hcache. unfold get_preprocessed, runPreprocess, bind, get.
  rewrite Hcache. cbn. rewrite Hcache. reflexivity.
Qed.

(** A read with an empty cache and nothing pending runs [preprocess]. *)
Lemma get_preprocessed_first o :
  preprocessed o = None -> pendingPromise o = None ->
  get_preprocessed o
  = (Normal (preprocess (traceChild "preprocess" o)),
     set_preprocessed (preprocess (traceChild "preprocess" o))
       (traceChild "preprocess" o)).
Proof.
  intros Hcache Hpending.
  unfold get_preprocessed, runPreprocess, guardPendingPromise, bind, get, modify.
  rewrite Hcache, Hpending. reflexivity.
Qed.

(** A read with an empty cache and a pending chain throws. *)
Lemma get_preprocessed_pending o :
  preprocessed o = None -> pendingPromise o <> None ->
  get_preprocessed o
  = (Throw "You should call done() before calling this method",
     set_console (console o ++ ["Pending promise:"])%list o).
Proof.
  intros Hcache Hpending.
  unfold get_preprocessed, runPreprocess, guardPendingPromise, bind, get.
  rewrite Hcache. destruct (pendingPromise o); [reflexivity | contradiction].
Qed.


Context {collaborators : Collaborators}.
Context {reader : LineReader} {timing : StreamTiming} {scheduler : Scheduler}.

(** The message of the first check that fails. *)
Lemma write_without_title_or_description options o d :
  title o = None \/ description o = None ->
  exists error o',
    write options (o, d) = (Throw error, (o', d))
    /\ (forall o1, done o = (Normal tt, o1) ->
          error = match title o with
                  | None => "Missing title"
                  | Some _ => "Missing description"
                  end
          /\ o' = traceChild "write all" o1)
    /\ (forall e o1, done o = (Throw e, o1) -> error = e /\ o' = o1).
Proof.
  intro Hmissing. unfold write. cbv zeta. unfold bind at 1. unfold onInstance at 1.
  cbn [fst snd]. destruct (done o) as [[[]|e] o1] eqn:Hdone.
  - destruct (done_sameMetadata _ _ _ Hdone) as (_ & Htitle & Hdescription & _).
    unfold bind at 1. unfold onInstance at 1, modify at 1. cbn [fst snd].
    unfold bind at 1. unfold onInstance at 1, get at 1. cbn [fst snd].
    unfold traceChild at 1 2. cbn [title description set_span].
    rewrite Htitle, Hdescription.
    destruct (title o) as [t|].
    + destruct Hmissing as [Hm|Hm]; [discriminate|]. rewrite Hm.
      unfold bind at 1. cbn [invariant ret]. unfold bind at 1. cbn [invariant throw].
      eexists _, _. split; [reflexivity|].
      split; [intros o2 H; injection H as <-; split; reflexivity
             |intros e' o2 H; discriminate].
    + unfold bind at 1. cbn [invariant throw].
      eexists _, _. split; [reflexivity|].
      split; [intros o2 H; injection H as <-; split; reflexivity
             |intros e' o2 H; discriminate].
  - eexists _, _. split; [reflexivity|].
    split; [intros o2 H; discriminate
           |intros e' o2 H; injection H as <- <-; split; reflexivity].
Qed.

Lemma writeClash_without_title_or_description outputDir o d :
  title o = None \/ description o = None ->
  exists error o',
    writeClash outputDir (o, d) = (Throw error, (o', d))
    /\ (forall o1, done o = (Normal tt, o1) ->
          error = match title o with
                  | None => "Missing title"
                  | Some _ => "Missing description"
                  end
          /\ o' = o1)
    /\ (forall e o1, done o = (Throw e, o1) -> error = e /\ o' = o1).
Proof.
  intro Hmissing. unfold writeClash. unfold bind at 1. unfold onInstance at 1.
  cbn [fst snd]. destruct (done o) as [[[]|e] o1] eqn:Hdone.
  - destruct (done_sameMetadata _ _ _ Hdone) as (_ & Htitle & Hdescription & _).
    unfold bind at 1. unfold onInstance at 1, get at 1. cbn [fst snd].
    rewrite Htitle, Hdescription.
    destruct (title o) as [t|].
    + destruct Hmissing as [Hm|Hm]; [discriminate|]. rewrite Hm.
      unfold bind at 1. cbn [invariant ret]. unfold bind at 1. cbn [invariant throw].
      eexists _, _. split; [reflexivity|].
      split; [intros o2 H; injection H as <-; split; reflexivity
             |intros e' o2 H; discriminate].
    + unfold bind at 1. cbn [invariant throw].
      eexists _, _. split; [reflexivity|].
      split; [intros o2 H; injection H as <-; split; reflexivity
             |intros e' o2 H; discriminate].
  - eexists _, _. split; [reflexivity|].
    split; [intros o2 H; discriminate
           |intros e' o2 H; injection H as <- <-; split; reflexivity].
Qed.

(** C6 (as amended): a read of the preprocessed view made while the
    chain is pending and no view is cached throws, with the message that
    done() has to be called first, and [preprocess] is not run; once a
    view that is not null is cached, a read returns it and changes
    nothing, whatever is pending; [write] and [writeClash] on an instance
    without title or without description throw and leave the files as
    they were, no call of compareAndWriteFile having been made: the
    error is "Missing title" or "Missing description" when the barrier
    resolves, and the error of the ingestion when the barrier throws. *)
Theorem precondition_violations_throw o :
  (pendingPromise o <> None -> preprocessed o = None ->
     exists o',
       get_preprocessed o
       = (Throw "You should call done() before calling this method", o')
       /\ preprocessed o' = None /\ span o' = span o)
  /\ (forall view, preprocessed o = Some view ->
        get_preprocessed o = (Normal (Some view), o))
  /\ (title o = None \/ description o = None ->
        forall d,
          (forall options, exists error o',
              write options (o, d) = (Throw error, (o', d))
              /\ (forall o1, done o = (Normal tt, o1) ->
                    error = match title o with
                            | None => "Missing title"
                            | Some _ => "Missing description"
                            end
                    /\ o' = traceChild "write all" o1)
              /\ (forall e o1, done o = (Throw e, o1) -> error = e /\ o' = o1))
          /\ (forall outputDir, exists error o',
                writeClash outputDir (o, d) = (Throw error, (o', d))
                /\ (forall o1, done o = (Normal tt, o1) ->
                      error = match title o with
                              | None => "Missing title"
                              | Some _ => "Missing description"
                              end
                      /\ o' = o1)
                /\ (forall e o1, done o = (Throw e, o1) -> error = e /\ o' = o1))).
Proof.
  split; [|split].
  - intros Hpending Hcache. rewrite (get_preprocessed_pending o Hcache Hpending).
    eexists. split; [reflexivity|]. split; [exact Hcache | reflexivity].
  - intros view Hcache. apply get_preprocessed_cached. exact Hcache.
  - intros Hmissing d. split.
    + intro options. apply write_without_title_or_description. exact Hmissing.
    + intro outputDir. apply writeClash_without_title_or_description. exact Hmissing.
Qed.

End Barrier.



Lemma precondition_violations_throw_witness :
  (exists o',
      get_preprocessed (addFromRuleset ["DOMAIN,example.com"]
                          (newRuleOutput (list string) "demo" 0))
      = (Throw "You should call done() before calling this method", o')
      /\ preprocessed o' = None
      /\ span o' = span (addFromRuleset ["DOMAIN,example.com"]
                           (newRuleOutput (list string) "demo" 0)))
  /\ (exists error o',
        write noOptions (addFromRuleset ["DOMAIN,example.com"]
                           (newRuleOutput (list string) "demo" 0),
                         fun _ => None)
        = (Throw error, (o', fun _ => None))
        /\ (forall o1,
              done (addFromRuleset ["DOMAIN,example.com"]
                      (newRuleOutput (list string) "demo" 0)) = (Normal tt, o1) ->
              error = "Missing title" /\ o' = traceChild "write all" o1)
        /\ (forall e o1,
              done (addFromRuleset ["DOMAIN,example.com"]
                      (newRuleOutput (list string) "demo" 0)) = (Throw e, o1) ->
              error = e /\ o' = o1)).
Proof.
  split.
  - apply (proj1 (precondition_violations_throw
                    (addFromRuleset ["DOMAIN,example.com"]
                       (newRuleOutput (list string) "demo" 0)))).
    + discriminate.
    + reflexivity.
  - apply (proj1 (proj2 (proj2 (precondition_violations_throw
                                  (addFromRuleset ["DOMAIN,example.com"]
                                     (newRuleOutput (list string) "demo" 0))))
                    (or_introl eq_refl) (fun _ => None))).
Defined.

(** C6, as stated, fails: on an instance that was read once and then
    given a new source, the chain is pending and yet a read of the view
    returns, with the view computed before the new source came. *)
Lemma cached_view_is_read_while_pending :
  pendingPromise readThenFed
  = Some (Queued [RulesetTask ["DOMAIN-SUFFIX,example.com"]])
  /\ get_preprocessed readThenFed = (Normal (Some ["FOO,bar"]), readThenFed).
Proof. split; reflexivity. Qed.

(** A run of [write] on an instance with its metadata and no file yet:
    the three files are written, and the child spans are opened on the
    span of the instance. *)
Example write_with_metadata :
  let run :=
    write noOptions
      (withDescription ["demo rules"]
         (withTitle "Demo"
            (addFromRuleset ["FOO,bar"] (newRuleOutput (list string) "demo" 0))),
       fun _ => None) in
  fst run = Normal tt
  /\ snd (snd run) "List/non_ip/demo.conf"
     = Some (terminated ["# Demo"; "# demo rules"; "FOO,bar"])
  /\ snd (snd run) "Clash/non_ip/demo.txt"
     = Some (terminated ["# Demo"; "# demo rules"; "FOO,bar"])
  /\ snd (snd run) "sing-box/non_ip/demo.json" = Some (terminated ["FOO,bar"])
  /\ span (fst (snd run))
     = [ "write all";
         "compare List/non_ip/demo.conf";
         "compare Clash/non_ip/demo.txt";
         "compare sing-box/non_ip/demo.json";
         "writing List/non_ip/demo.conf";
         "writing Clash/non_ip/demo.txt";
         "writing sing-box/non_ip/demo.json" ].
Proof.
  cbv zeta.
  split; [vm_compute; reflexivity|].
  split; [vm_compute; reflexivity|].
  split; [vm_compute; reflexivity|].
  split; vm_compute; reflexivity.
Qed.

(* ================================================================= *)
(** ** Ingestion through the barrier *)

Section ThroughTheBarrier.
Context {T : Type}.
Implicit Types o : RuleOutput T.

Lemma routedTo_same_start d o0 o o' :
  routedInOrder [] o0 o -> routedTo d o o' -> routedTo d o0 o'.
Proof.
  intros (Hsets & Htrie & Hother).
  destruct d; cbn [routedTo]; rewrite Hsets, Htrie, Hother; exact (fun H => H).
Qed.

Lemma routedInOrder_same_ends ds : forall o0 o o' o1,
  routedInOrder [] o0 o -> routedInOrder [] o' o1 ->
  routedInOrder ds o o' -> routedInOrder ds o0 o1.
Proof.
  induction ds as [|d ds IH]; intros o0 o o' o1 Hstart Hend Hrun.
  - destruct Hstart as (H1 & H2 & H3), Hend as (H4 & H5 & H6),
      Hrun as (H7 & H8 & H9).
    repeat split; congruence.
  - destruct Hrun as (mid & Hd & Hrest). exists mid. split.
    + exact (routedTo_same_start _ _ _ _ Hstart Hd).
    + exact (IH mid mid o' o1 (routedInOrder_nil mid) Hend Hrest).
Qed.

(** A source handed to [addFromRuleset] on an idle instance is ingested
    when [done()] is awaited, and the chain is cleared. *)
Lemma addFromRuleset_then_done source o :
  pendingPromise o = None ->
  Forall valuePresentIfProcessName source ->
  exists o',
    done (addFromRuleset source o) = (Normal tt, o')
    /\ pendingPromise o' = None
    /\ routedInOrder (map specDestination source) o o'
    /\ otherRules o'
       = (otherRules o ++ filter (fun line => negb (supported line)) source)%list.
Proof.
  intros Hidle Hok.
  destruct (addFromRulesetPromise_routes source (addFromRuleset source o) Hok)
    as (o1 & Hrun & Hrouted & Hother).
  exists (set_pendingPromise None o1).
  unfold done. unfold addFromRuleset at 1. cbn [pendingPromise set_pendingPromise].
  rewrite Hidle. cbn [chain runTasks runTask]. unfold bind. rewrite Hrun.
  cbn [ret]. split; [reflexivity|]. split; [reflexivity|]. split.
  - apply (routedInOrder_same_ends _ o (addFromRuleset source o) o1);
      [repeat split | repeat split | exact Hrouted].
  - exact Hother.
Qed.

Context {subclass : Subclass T}.

(** Nothing invalidates the cache: after more work and another barrier a
    read still returns the view computed before. *)
Lemma cache_survives_ingestion source o view r o' :
  preprocessed o = Some view ->
  done (addFromRuleset source o) = (r, o') ->
  get_preprocessed o' = (Normal (Some view), o').
Proof.
  intros Hcache Hdone. apply get_preprocessed_cached.
  destruct (done_sameMetadata _ _ _ Hdone) as (_ & _ & _ & _ & Hsame & _).
  rewrite Hsame. exact Hcache.
Qed.

End ThroughTheBarrier.

(* ================================================================= *)
(** ** Further properties of fileEqual *)

Lemma lockstep_true_iff linesA : forall source,
  lockstep linesA source = true
  <-> exists head rest,
        source = (head ++ rest)%list
        /\ Forall2 linesEqualSpec linesA head
        /\ (rest = [] \/ exists later, rest = "" :: later).
Proof.
  induction linesA as [|lineA linesA IH]; intro source.
  - destruct source as [|lineB source]; cbn [lockstep].
    + split; [|reflexivity]. intros _. exists [], []. repeat split.
      * constructor.
      * left. reflexivity.
    + rewrite js_length_zero. split.
      * intros ->. exists [], ("" :: source). repeat split; [constructor|].
        right. eauto.
      * intros (head & rest & Hsrc & Hhead & Hrest). inversion Hhead; subst.
        cbn [app] in Hsrc. destruct Hrest as [->|(later & ->)]; congruence.
  - destruct source as [|lineB source]; cbn [lockstep].
    + split; [discriminate|].
      intros (head & rest & Hsrc & Hhead & _). inversion Hhead; subst.
      discriminate.
    + destruct (compareLine_verdicts lineA lineB) as [Hc|Hr].
      * rewrite Hc, IH. split.
        -- intros (head & rest & -> & Hhead & Hrest).
           exists (lineB :: head), rest. repeat split; [|exact Hrest].
           constructor; [apply compareLine_Continue; exact Hc | exact Hhead].
        -- intros (head & rest & Hsrc & Hhead & Hrest).
           inversion Hhead as [|? b ? head' _ Hhead']; subst.
           injection Hsrc as -> ->. exists head', rest. repeat split; assumption.
      * rewrite Hr. split; [discriminate|].
        intros (head & rest & Hsrc & Hhead & _).
        inversion Hhead as [|? b ? head' Hspec _]; subst.
        injection Hsrc as -> _. apply compareLine_Continue in Hspec. congruence.
Qed.

Lemma Forall2_nth_error {A B : Type} (R : A -> B -> Prop) l : forall l' i a b,
  Forall2 R l l' -> nth_error l i = Some a -> nth_error l' i = Some b -> R a b.
Proof.
  induction l as [|x l IH]; intros l' i a b Hall Ha Hb.
  - destruct i; discriminate.
  - inversion Hall as [|? y ? l'' Hxy Hrest]; subst.
    destruct i as [|i]; cbn [nth_error] in Ha, Hb.
    + injection Ha as <-. injection Hb as <-. exact Hxy.
    + exact (IH _ _ _ _ Hrest Ha Hb).
Qed.

(** A pair met in lockstep by a comparison that answers true is a pair of
    equal lines. *)
Lemma lockstep_pairs linesA source i lineA lineB :
  lockstep linesA source = true ->
  nth_error linesA i = Some lineA -> nth_error source i = Some lineB ->
  linesEqualSpec lineA lineB.
Proof.
  intros Htrue HA HB.
  apply lockstep_true_iff in Htrue. destruct Htrue as (head & rest & -> & Hhead & _).
  assert (Hi : (i < List.length head)%nat).
  { rewrite <- (Forall2_length Hhead). apply nth_error_Some. congruence. }
  rewrite nth_error_app1 in HB by exact Hi.
  exact (Forall2_nth_error _ _ _ _ _ _ Hhead HA HB).
Qed.

Lemma linesEqualSpec_first_chars lineA lineB :
  linesEqualSpec lineA lineB -> String.get 0 lineA = String.get 0 lineB.
Proof.
  unfold linesEqualSpec, startsWith, headerDivider.
  intros [[-> ->] | [[HA HB] | [[HA HB] | [[[HA _] [HB _]] | -> ]]]];
    try reflexivity; congruence.
Qed.

(** A candidate that is not empty is compared through [lockstep]. *)
Lemma fileEqual_nonempty linesA source :
  linesA <> [] -> fileEqual linesA source = Normal (lockstep linesA source).
Proof.
  intro Hne. rewrite fileEqual_lockstep. destruct linesA; [contradiction|reflexivity].
Qed.

(** A prefix of the existing file, pairwise equal to a candidate that is
    not empty, followed by nothing or by an empty line: the files are
    equal. *)
Lemma fileEqual_prefix linesA head rest :
  linesA <> [] ->
  Forall2 linesEqualSpec linesA head ->
  rest = [] \/ (exists later, rest = "" :: later) ->
  fileEqual linesA (head ++ rest) = Normal true.
Proof.
  intros Hne Hhead Hrest. rewrite (fileEqual_nonempty _ _ Hne). f_equal.
  apply lockstep_true_iff. exists head, rest. repeat split; assumption.
Qed.

(** C3: two lines count as equal exactly when both are empty, or both
    start with [#], or both start with [!], or both are header dividers,
    or they are identical.  A one-line candidate against a one-line file
    is equal exactly then; a candidate that is not empty against a file
    of as many lines is equal exactly when every pair is; and whatever
    the lengths, a pair met in lockstep that is not equal in this sense,
    in particular a pair with different first characters, makes
    fileEqual answer false. *)
Theorem lockstep_line_equality linesA source :
  linesA <> [] ->
  (forall lineA lineB,
      fileEqual [lineA] [lineB] = Normal true <-> linesEqualSpec lineA lineB)
  /\ (List.length source = List.length linesA ->
      (fileEqual linesA source = Normal true <-> Forall2 linesEqualSpec linesA source))
  /\ (forall i lineA lineB,
        nth_error linesA i = Some lineA -> nth_error source i = Some lineB ->
        (fileEqual linesA source = Normal true -> linesEqualSpec lineA lineB)
        /\ (~ linesEqualSpec lineA lineB -> fileEqual linesA source = Normal false)
        /\ (String.get 0 lineA <> String.get 0 lineB ->
            fileEqual linesA source = Normal false)).
Proof.
  intro Hne.
  assert (Hpair : forall i lineA lineB,
             nth_error linesA i = Some lineA -> nth_error source i = Some lineB ->
             ~ linesEqualSpec lineA lineB -> fileEqual linesA source = Normal false).
  { intros i lineA lineB HA HB Hspec. rewrite (fileEqual_nonempty _ _ Hne). f_equal.
    destruct (lockstep linesA source) eqn:Htrue; [|reflexivity].
    exfalso. exact (Hspec (lockstep_pairs _ _ _ _ _ Htrue HA HB)). }
  split; [|split].
  - intros lineA lineB. rewrite fileEqual_nonempty by discriminate.
    rewrite <- compareLine_Continue. cbn [lockstep].
    destruct (compareLine_verdicts lineA lineB) as [-> | ->];
      split; intro H; try reflexivity; discriminate.
  - intro Hlen. rewrite (fileEqual_nonempty _ _ Hne).
    rewrite <- (lockstep_same_length _ _ Hlen). split; intro H.
    + injection H as H. exact H.
    + rewrite H. reflexivity.
  - intros i lineA lineB HA HB. split; [|split].
    + rewrite (fileEqual_nonempty _ _ Hne). intro H. injection H as H.
      exact (lockstep_pairs _ _ _ _ _ H HA HB).
    + exact (Hpair i lineA lineB HA HB).
    + intro Hchars. apply (Hpair i lineA lineB HA HB).
      intro Hspec. exact (Hchars (linesEqualSpec_first_chars _ _ Hspec)).
Qed.

Lemma lockstep_line_equality_witness :
  fileEqual ["# banner v2"; "example.com"] ["# banner v1"; "example.com"] = Normal true
  <-> Forall2 linesEqualSpec ["# banner v2"; "example.com"] ["# banner v1"; "example.com"].
Proof.
  apply (lockstep_line_equality
           ["# banner v2"; "example.com"] ["# banner v1"; "example.com"]).
  - discriminate.
  - reflexivity.
Defined.

(** X1: fileEqual always returns, and it answers true exactly when the
    candidate is not empty, the candidate's lines are pairwise equal (in
    the comparator's sense) to the first lines of the existing file, and
    the existing file either stops there or goes on with an empty line;
    what follows that empty line is not looked at. *)
Theorem fileEqual_true_iff linesA source :
  (exists b, fileEqual linesA source = Normal b)
  /\ (fileEqual linesA source = Normal true
      <-> linesA <> []
          /\ exists head rest,
               source = (head ++ rest)%list
               /\ Forall2 linesEqualSpec linesA head
               /\ (rest = [] \/ exists later, rest = "" :: later)).
Proof.
  rewrite fileEqual_lockstep. split; [eauto|].
  destruct linesA as [|lineA linesA].
  - split; [discriminate | intros [H _]; contradiction].
  - split.
    + intro H. injection H as H. split; [discriminate|].
      apply lockstep_true_iff. exact H.
    + intros [_ H]. f_equal. apply lockstep_true_iff. exact H.
Qed.

Lemma linesEqualSpec_refl line : linesEqualSpec line line.
Proof. repeat right. reflexivity. Qed.

Lemma Forall2_banners bannerA : forall bannerB,
  List.length bannerA = List.length bannerB ->
  Forall (startsWith "#") bannerA -> Forall (startsWith "#") bannerB ->
  Forall2 linesEqualSpec bannerA bannerB.
Proof.
  induction bannerA as [|a bannerA IH]; intros [|b bannerB] Hlen HA HB;
    try discriminate; [constructor|].
  inversion HA; inversion HB; subst. injection Hlen as Hlen.
  constructor; [right; left; split; assumption | apply IH; assumption].
Qed.

(** X2: two outputs that differ only in their leading comment lines (as
    many on both sides, all starting with [#]) are equal for fileEqual:
    a banner with a new timestamp does not make the file differ. *)
Theorem fileEqual_ignores_banner bannerA bannerB body :
  List.length bannerA = List.length bannerB ->
  Forall (startsWith "#") bannerA ->
  Forall (startsWith "#") bannerB ->
  (bannerA ++ body)%list <> [] ->
  fileEqual (bannerA ++ body) (bannerB ++ body) = Normal true.
Proof.
  intros Hlen HA HB Hne.
  rewrite <- (app_nil_r (bannerB ++ body)).
  apply fileEqual_prefix; [exact Hne | | left; reflexivity].
  apply Forall2_app; [apply Forall2_banners; assumption|].
  clear. induction body; constructor; [apply linesEqualSpec_refl | assumption].
Qed.

Lemma fileEqual_ignores_banner_witness :
  fileEqual (["# Title"; "# Last Updated: 2024-01-01"] ++ ["example.com"; "example.org"])
            (["# Title"; "# Last Updated: 2023-12-31"] ++ ["example.com"; "example.org"])
  = Normal true.
Proof.
  apply (fileEqual_ignores_banner
           ["# Title"; "# Last Updated: 2024-01-01"]
           ["# Title"; "# Last Updated: 2023-12-31"]
           ["example.com"; "example.org"]).
  - reflexivity.
  - repeat constructor.
  - repeat constructor.
  - discriminate.
Defined.

(* ================================================================= *)
(** ** Properties of compareAndWriteFile *)

Lemma string_app_assoc (a b c : string) : ((a ++ b) ++ c = a ++ (b ++ c))%string.
Proof. induction a as [|x a IH]; cbn; [reflexivity | rewrite IH; reflexivity]. Qed.

Lemma string_app_nil_r (a : string) : (a ++ "" = a)%string.
Proof. induction a as [|x a IH]; cbn; [reflexivity | rewrite IH; reflexivity]. Qed.

(** Joining with newlines and closing with one more is ending every line
    with a newline, as soon as there is a line. *)
Lemma join_terminated lines :
  lines <> [] -> (join newline lines ++ newline)%string = terminated lines.
Proof.
  intro Hne. destruct lines as [|line lines]; [contradiction|]. clear Hne.
  revert line. induction lines as [|next lines IH]; intro line.
  - cbn [join String.concat terminated]. rewrite string_app_nil_r. reflexivity.
  - change (join newline (line :: next :: lines))
      with (line ++ newline ++ join newline (next :: lines))%string.
    rewrite !string_app_assoc, IH. reflexivity.
Qed.

(** The stream is handed every line followed by a newline, in order. *)
Lemma streamLines_handed linesA : forall stream,
  streamLines stream linesA
  = mkWriteStream (streamPath stream) (handed stream ++ terminated linesA) (ended stream).
Proof.
  induction linesA as [|line linesA IH]; intro stream; cbn [streamLines terminated].
  - rewrite string_app_nil_r. destruct stream. reflexivity.
  - rewrite IH. cbn [asyncWriteToStream streamPath handed ended].
    rewrite !string_app_assoc. reflexivity.
Qed.

Section Publishing.
Context {reader : LineReader} {timing : StreamTiming}.

(** The branch taken when the comparison says the files differ. *)
Lemma writing_branch linesA filePath w :
  exists w',
    writeIfDifferent linesA filePath false w = (Normal tt, w')
    /\ (forall p, p <> filePath -> files w' p = files w p)
    /\ (Z.of_nat (List.length linesA) < 500 ->
        files w' filePath = Some (join newline linesA ++ newline)%string)
    /\ (500 <= Z.of_nat (List.length linesA) ->
        files w' filePath
        = onDiskAtReturn (files w filePath)
            (mkWriteStream filePath (join newline linesA ++ newline) true)).
Proof.
  unfold writeIfDifferent. cbv zeta. unfold bind at 1. unfold modify at 1.
  destruct (Z.of_nat (List.length linesA) <? 500) eqn:Hlen.
  - apply Z.ltb_lt in Hlen. eexists. split; [reflexivity|].
    unfold onFiles, writeFile. cbn [files traceChildAsync].
    rewrite String.eqb_refl. split; [|split].
    + intros p Hp. destruct (String.eqb_spec p filePath); [contradiction|reflexivity].
    + reflexivity.
    + lia.
  - apply Z.ltb_ge in Hlen. eexists. split; [reflexivity|].
    unfold onFiles, leaveToStream. cbn [files traceChildAsync].
    rewrite streamLines_handed. cbn [endStream createWriteStream streamPath handed ended].
    rewrite String.eqb_refl. split; [|split].
    + intros p Hp. destruct (String.eqb_spec p filePath); [contradiction|reflexivity].
    + lia.
    + intros _. cbn [append]. rewrite join_terminated; [reflexivity|].
      intro Hnil. rewrite Hnil in Hlen. cbn in Hlen. lia.
Qed.

(** The branch taken when the comparison says the files are equal. *)
Lemma skipping_branch linesA filePath content w :
  files w filePath = Some content ->
  fileEqual linesA (readFileByLine content) = Normal true ->
  exists w',
    compareAndWriteFile linesA filePath w = (Normal tt, w')
    /\ files w' = files w
    /\ stdout w' = (stdout w ++ [("same content, bail out writing: " ++ filePath)%string])%list.
Proof.
  intros Hsome Hsame. unfold compareAndWriteFile, compareFile, writeIfDifferent.
  cbv zeta. unfold bind, modify, get. cbn [files traceChildAsync]. rewrite Hsome, Hsame.
  eexists. repeat split.
Qed.

(** X3: when the file does not exist, or exists and fileEqual says it
    differs, compareAndWriteFile touches no other file and passes on the
    lines joined with newlines plus a closing newline: with fewer than
    500 lines the file holds exactly that when the call returns; with 500
    lines or more the write stream has been handed exactly that, line by
    line, and ended, and what the file holds when the call returns is up
    to the stream, which the call does not wait for. *)
Theorem compareAndWriteFile_writes_joined_lines linesA filePath w :
  files w filePath = None
  \/ (exists content, files w filePath = Some content
                      /\ fileEqual linesA (readFileByLine content) = Normal false) ->
  exists w',
    compareAndWriteFile linesA filePath w = (Normal tt, w')
    /\ (forall p, p <> filePath -> files w' p = files w p)
    /\ (Z.of_nat (List.length linesA) < 500 ->
        files w' filePath = Some (join newline linesA ++ newline)%string)
    /\ (500 <= Z.of_nat (List.length linesA) ->
        files w' filePath
        = onDiskAtReturn (files w filePath)
            (mkWriteStream filePath (join newline linesA ++ newline) true)).
Proof.
  intro Hcase. unfold compareAndWriteFile, compareFile.
  unfold bind at 1. unfold bind at 1. unfold modify at 1. unfold bind at 1.
  unfold get at 1. cbn [files traceChildAsync].
  destruct Hcase as [Hnone | (content & Hsome & Hdiff)].
  - rewrite Hnone. unfold bind at 1. unfold modify at 1. unfold ret at 1.
    destruct (writing_branch linesA filePath
                (consoleLog (filePath ++ " does not exists, writing...")
                   (traceChildAsync ("compare " ++ filePath) w)))
      as (w' & Hrun & Hframe & Hshort & Hlong).
    exists w'. split; [exact Hrun|]. split; [exact Hframe|].
    split; [exact Hshort|]. intro Hlen. rewrite (Hlong Hlen).
    cbn [files consoleLog traceChildAsync]. rewrite Hnone. reflexivity.
  - rewrite Hsome, Hdiff.
    destruct (writing_branch linesA filePath (traceChildAsync ("compare " ++ filePath) w))
      as (w' & Hrun & Hframe & Hshort & Hlong).
    exists w'. split; [exact Hrun|]. split; [exact Hframe|].
    split; [exact Hshort|]. intro Hlen. rewrite (Hlong Hlen).
    cbn [files traceChildAsync]. rewrite Hsome. reflexivity.
Qed.

(** X4: when the file exists and fileEqual says it is equal to the
    candidate, compareAndWriteFile writes nothing: the files are the very
    same afterwards, and the skip is printed. *)
Theorem compareAndWriteFile_skips_equal_file linesA filePath content w :
  files w filePath = Some content ->
  fileEqual linesA (readFileByLine content) = Normal true ->
  exists w',
    compareAndWriteFile linesA filePath w = (Normal tt, w')
    /\ files w' = files w
    /\ stdout w' = (stdout w ++ [("same content, bail out writing: " ++ filePath)%string])%list.
Proof. exact (skipping_branch linesA filePath content w). Qed.

(** X5: publishing again is a skip.  If the file holds what a write of
    [written] leaves, and the reader gives those lines back (with or
    without an empty line for the closing newline), then a candidate
    whose lines are pairwise equal to [written] in the comparator's
    sense, a fresh banner for instance, leaves every file as it is. *)
Theorem republishing_writes_nothing written linesA filePath w :
  files w filePath = Some (join newline written ++ newline)%string ->
  readFileByLine (join newline written ++ newline)%string = written
  \/ readFileByLine (join newline written ++ newline)%string = (written ++ [""])%list ->
  linesA <> [] ->
  Forall2 linesEqualSpec linesA written ->
  exists w', compareAndWriteFile linesA filePath w = (Normal tt, w')
             /\ files w' = files w.
Proof.
  intros Hfile Hread Hne Hsame.
  assert (Hequal : fileEqual linesA
                     (readFileByLine (join newline written ++ newline)%string)
                   = Normal true).
  { destruct Hread as [-> | ->].
    - rewrite <- (app_nil_r written).
      apply fileEqual_prefix; [exact Hne | exact Hsame | left; reflexivity].
    - apply fileEqual_prefix; [exact Hne | exact Hsame | right; eauto]. }
  destruct (skipping_branch _ _ _ _ Hfile Hequal) as (w' & Hrun & Hfiles & _).
  exists w'. split; assumption.
Qed.

End Publishing.


Lemma compareAndWriteFile_writes_joined_lines_witness :
  exists w',
    compareAndWriteFile ["# Title"; "example.com"] "List/non_ip/demo.conf"
      (mkWorld (fun _ => None) [] []) = (Normal tt, w')
    /\ (forall p, p <> "List/non_ip/demo.conf"
                  -> files w' p = files (mkWorld (fun _ => None) [] []) p)
    /\ (Z.of_nat (List.length ["# Title"; "example.com"]) < 500 ->
        files w' "List/non_ip/demo.conf"
        = Some (join newline ["# Title"; "example.com"] ++ newline)%string)
    /\ (500 <= Z.of_nat (List.length ["# Title"; "example.com"]) ->
        files w' "List/non_ip/demo.conf"
        = onDiskAtReturn (files (mkWorld (fun _ => None) [] []) "List/non_ip/demo.conf")
            (mkWriteStream "List/non_ip/demo.conf"
               (join newline ["# Title"; "example.com"] ++ newline) true)).
Proof.
  apply (compareAndWriteFile_writes_joined_lines
           ["# Title"; "example.com"] "List/non_ip/demo.conf"
           (mkWorld (fun _ => None) [] [])).
  left. reflexivity.
Defined.

Lemma compareAndWriteFile_skips_equal_file_witness :
  exists w',
    compareAndWriteFile ["# v2"; "example.com"] "demo.conf"
      (mkWorld (fun _ => Some (terminated ["# v1"; "example.com"])) [] [])
    = (Normal tt, w')
    /\ files w' = files (mkWorld (fun _ => Some (terminated ["# v1"; "example.com"])) [] [])
    /\ stdout w'
       = (stdout (mkWorld (fun _ => Some (terminated ["# v1"; "example.com"])) [] [])
          ++ [("same content, bail out writing: " ++ "demo.conf")%string])%list.
Proof.
  apply (compareAndWriteFile_skips_equal_file
           ["# v2"; "example.com"] "demo.conf" (terminated ["# v1"; "example.com"])
           (mkWorld (fun _ => Some (terminated ["# v1"; "example.com"])) [] []));
    reflexivity.
Defined.

Lemma republishing_writes_nothing_witness :
  exists w',
    compareAndWriteFile ["# v2"; "example.com"] "demo.conf"
      (mkWorld (fun _ => Some (join newline ["# v1"; "example.com"] ++ newline)%string)
               [] [])
    = (Normal tt, w')
    /\ files w'
       = files (mkWorld
                  (fun _ => Some (join newline ["# v1"; "example.com"] ++ newline)%string)
                  [] []).
Proof.
  apply (republishing_writes_nothing ["# v1"; "example.com"] ["# v2"; "example.com"]
           "demo.conf"
           (mkWorld (fun _ => Some (join newline ["# v1"; "example.com"] ++ newline)%string)
                    [] [])).
  - reflexivity.
  - right. reflexivity.
  - discriminate.
  - constructor; [right; left; split; reflexivity|].
    constructor; [apply linesEqualSpec_refl | constructor].
Defined.

(* ================================================================= *)
(** ** Properties of domainWildCardToRegex *)

Lemma domainWildCardToRegex_loop_body domain : forall result,
  domainWildCardToRegex_loop domain result = (result ++ regexBody domain)%string.
Proof.
  induction domain as [|c domain IH]; intro result; cbn [domainWildCardToRegex_loop regexBody].
  - symmetry. apply string_app_nil_r.
  - rewrite IH, string_app_assoc. reflexivity.
Qed.

Lemma domainWildCardToRegex_body domain :
  domainWildCardToRegex domain = ("^" ++ regexBody domain ++ "$")%string.
Proof.
  unfold domainWildCardToRegex. rewrite domainWildCardToRegex_loop_body.
  apply string_app_assoc.
Qed.

Lemma regexPiece_cases c :
  (c = "."%char /\ regexPiece c = "\.")
  \/ (c = "*"%char /\ regexPiece c = "[\w.-]*?")
  \/ (c = "?"%char /\ regexPiece c = "[\w.-]")
  \/ (wildcardChar c = false /\ regexPiece c = String c "").
Proof.
  unfold regexPiece, wildcardChar.
  destruct (Ascii.eqb_spec c ".") as [->|H1]; [left; split; reflexivity|].
  destruct (Ascii.eqb_spec c "*") as [->|H2]; [right; left; split; reflexivity|].
  destruct (Ascii.eqb_spec c "?") as [->|H3]; [right; right; left; split; reflexivity|].
  right; right; right. split; reflexivity.
Qed.

(** No piece, hence no body, begins with a character that has a case of
    its own. *)
Lemma regexBody_head b c rest : regexBody b = String c rest -> wildcardChar c = false.
Proof.
  destruct b as [|d b]; cbn [regexBody]; [discriminate|].
  destruct (regexPiece_cases d) as [[-> ->]|[[-> ->]|[[-> ->]|[Hd ->]]]];
    cbn [append]; intro H; injection H as <- _; try reflexivity.
  exact Hd.
Qed.

Lemma regexBody_not_w_dot b rest :
  regexBody b <> String "w" (String "." rest).
Proof.
  destruct b as [|d b]; cbn [regexBody]; [discriminate|].
  destruct (regexPiece_cases d) as [[-> ->]|[[-> ->]|[[-> ->]|[Hd ->]]]];
    cbn [append]; try discriminate.
  intro H. injection H as _ H. apply regexBody_head in H. discriminate.
Qed.

Lemma regexBody_not_class b rest :
  regexBody b <> String "\" (String "w" (String "." rest)).
Proof.
  destruct b as [|d b]; cbn [regexBody]; [discriminate|].
  destruct (regexPiece_cases d) as [[-> ->]|[[-> ->]|[[-> ->]|[Hd ->]]]];
    cbn [append]; try discriminate.
  intro H. injection H as _ H. exact (regexBody_not_w_dot _ _ H).
Qed.

Ltac regex_clash :=
  match goal with
  | H : String _ _ = regexBody _ |- _ =>
      symmetry in H;
      first [ apply regexBody_head in H; discriminate H
            | exact (regexBody_not_class _ _ H) ]
  | H : regexBody _ = String _ _ |- _ =>
      first [ apply regexBody_head in H; discriminate H
            | exact (regexBody_not_class _ _ H) ]
  end.

Lemma regexBody_injective a : forall b, regexBody a = regexBody b -> a = b.
Proof.
  induction a as [|c a IH]; intros [|d b]; cbn [regexBody].
  - reflexivity.
  - destruct (regexPiece_cases d) as [[-> ->]|[[-> ->]|[[-> ->]|[Hd ->]]]];
      discriminate.
  - destruct (regexPiece_cases c) as [[-> ->]|[[-> ->]|[[-> ->]|[Hc ->]]]];
      discriminate.
  - destruct (regexPiece_cases c) as [[-> ->]|[[-> ->]|[[-> ->]|[Hc ->]]]];
      destruct (regexPiece_cases d) as [[-> ->]|[[-> ->]|[[-> ->]|[Hd ->]]]];
      cbn [append]; intro H; try discriminate H;
      injection H; intros; subst;
      first [ f_equal; apply IH; assumption | exfalso; regex_clash ].
Qed.

Lemma string_app_length (a b : string) :
  String.length (a ++ b) = (String.length a + String.length b)%nat.
Proof. induction a as [|x a IH]; cbn; [reflexivity | rewrite IH; reflexivity]. Qed.

Lemma string_app_cancel_r (a : string) : forall b s, (a ++ s = b ++ s)%string -> a = b.
Proof.
  induction a as [|x a IH]; intros [|y b] s H; cbn [append] in H.
  - reflexivity.
  - exfalso. apply (f_equal String.length) in H. cbn [String.length] in H.
    rewrite string_app_length in H. lia.
  - exfalso. apply (f_equal String.length) in H. cbn [String.length] in H.
    rewrite string_app_length in H. lia.
  - injection H as -> H. f_equal. exact (IH _ _ H).
Qed.

(** X6: domainWildCardToRegex is injective: two different wildcard
    domains never give the same regular expression. *)
Theorem domainWildCardToRegex_injective a b :
  domainWildCardToRegex a = domainWildCardToRegex b -> a = b.
Proof.
  rewrite !domainWildCardToRegex_body. cbn [append]. intro H. injection H as H.
  apply regexBody_injective. exact (string_app_cancel_r _ _ _ H).
Qed.

Lemma domainWildCardToRegex_injective_witness : "*.example.com" = "*.example.com".
Proof.
  apply (domainWildCardToRegex_injective "*.example.com" "*.example.com").
  reflexivity.
Defined.

Lemma regexBody_plain domain :
  (forall c, contains c domain -> wildcardChar c = false) -> regexBody domain = domain.
Proof.
  unfold contains. induction domain as [|c domain IH]; intro Hplain; [reflexivity|].
  cbn [regexBody].
  destruct (regexPiece_cases c) as [[-> _]|[[-> _]|[[-> _]|[_ ->]]]];
    try (specialize (Hplain _ (or_introl eq_refl)); discriminate).
  cbn [append]. f_equal. apply IH. intros d Hd. apply Hplain. right. exact Hd.
Qed.

(** X7: the result is the domain between [^] and [$], with every
    character other than [.], [*] and [?] copied as it is, so a domain
    that has none of the three comes out unchanged between the anchors
    (characters that are special in a regular expression, a bracket or a
    backslash for instance, are not escaped). *)
Theorem domainWildCardToRegex_copies_plain_characters domain :
  (forall c, contains c domain -> wildcardChar c = false) ->
  domainWildCardToRegex domain = ("^" ++ domain ++ "$")%string.
Proof.
  intro Hplain. rewrite domainWildCardToRegex_body, (regexBody_plain _ Hplain).
  reflexivity.
Qed.

Lemma domainWildCardToRegex_copies_plain_characters_witness :
  domainWildCardToRegex "a[b]+c" = ("^" ++ "a[b]+c" ++ "$")%string.
Proof.
  apply (domainWildCardToRegex_copies_plain_characters "a[b]+c").
  intros c Hc. unfold contains in Hc. cbn in Hc.
  repeat (destruct Hc as [<-|Hc]; [reflexivity|]). contradiction.
Defined.

(* ================================================================= *)
(** ** Further properties of ingestion *)

Section MoreIngestion.
Context {T : Type}.
Implicit Types o : RuleOutput T.

Lemma addFromRulesetPromise_app pre : forall post o,
  addFromRulesetPromise (pre ++ post) o
  = (addFromRulesetPromise pre ;; addFromRulesetPromise post) o.
Proof.
  induction pre as [|line pre IH]; intros post o; [reflexivity|].
  cbn [app addFromRulesetPromise]. unfold bind.
  destruct (rulesetLine line o) as [[[]|e] o1]; [|reflexivity].
  rewrite IH. reflexivity.
Qed.

Lemma addFromRulesetPromise_deliverAll source : forall o,
  Forall valuePresentIfProcessName source ->
  addFromRulesetPromise source o = (Normal tt, deliverAll source o).
Proof.
  induction source as [|line source IH]; intros o Hok; [reflexivity|].
  inversion Hok as [|? ? Hline Hrest]; subst.
  cbn [addFromRulesetPromise]. unfold bind.
  destruct (rulesetLine_deliver line o) as [-> | (Htype & Hvalue & _)].
  - apply IH. exact Hrest.
  - exfalso. exact (Hline Htype Hvalue).
Qed.


(** X8: an ingestion stops at the first PROCESS-NAME line without a
    value: the lines before it are in their buckets, the TypeError is
    thrown, and the lines after it are never read. *)
Theorem ingestion_stops_at_valueless_process_name (pre post : list string) o :
  Forall valuePresentIfProcessName pre ->
  addFromRulesetPromise pre o = (Normal tt, deliverAll pre o)
  /\ addFromRulesetPromise (pre ++ "PROCESS-NAME" :: post) o
     = (Throw "TypeError: Cannot read properties of undefined (reading 'includes')",
        deliverAll pre o).
Proof.
  intro Hok. pose proof (addFromRulesetPromise_deliverAll pre o Hok) as Hpre.
  split; [exact Hpre|].
  rewrite addFromRulesetPromise_app. unfold bind at 1. rewrite Hpre.
  reflexivity.
Qed.








(** X18: an ingestion, of any lines and whether it returns or throws,
    changes nothing but the buckets: id, title, description, date, cached
    view, trace, module path, console and the pending chain are as they
    were. *)
Theorem ingestion_changes_only_buckets (source : list string) o r o' :
  addFromRulesetPromise source o = (r, o') ->
  id o' = id o /\ title o' = title o /\ description o' = description o
  /\ date o' = date o /\ preprocessed o' = preprocessed o /\ span o' = span o
  /\ mitmSgmodulePath o' = mitmSgmodulePath o /\ console o' = console o
  /\ pendingPromise o' = pendingPromise o.
Proof.
  intro Hrun. destruct (addFromRulesetPromise_sameMetadata _ _ _ _ Hrun) as [Hm Hp].
  unfold sameMetadata in Hm. intuition.
Qed.

End MoreIngestion.

Lemma ingestion_stops_at_valueless_process_name_witness :
  addFromRulesetPromise ["DOMAIN-KEYWORD,ads"] (newRuleOutput unit "demo" 0)
  = (Normal tt, deliverAll ["DOMAIN-KEYWORD,ads"] (newRuleOutput unit "demo" 0))
  /\ addFromRulesetPromise (["DOMAIN-KEYWORD,ads"] ++ "PROCESS-NAME" :: ["USER-AGENT,curl*"])
       (newRuleOutput unit "demo" 0)
     = (Throw "TypeError: Cannot read properties of undefined (reading 'includes')",
        deliverAll ["DOMAIN-KEYWORD,ads"] (newRuleOutput unit "demo" 0)).
Proof.
  apply (ingestion_stops_at_valueless_process_name
           ["DOMAIN-KEYWORD,ads"] ["USER-AGENT,curl*"] (newRuleOutput unit "demo" 0)).
  repeat constructor. intro Htype. vm_compute. discriminate.
Defined.


Lemma ingestion_changes_only_buckets_witness :
  title (deliverAll ["DOMAIN-KEYWORD,ads"] (withTitle "Demo" (newRuleOutput unit "demo" 0)))
  = title (withTitle "Demo" (newRuleOutput unit "demo" 0)).
Proof.
  apply (ingestion_changes_only_buckets
           ["DOMAIN-KEYWORD,ads"] (withTitle "Demo" (newRuleOutput unit "demo" 0))
           (Normal tt)).
  reflexivity.
Defined.

(* ================================================================= *)
(** ** Set semantics of the buckets *)









(* ================================================================= *)
(** ** Properties of the bulk adders *)

Section BulkAdders.
Context {T : Type}.
Implicit Types o : RuleOutput T.

Lemma addFromDomainsetPromise_fold source : forall o,
  addFromDomainsetPromise source o
  = (Normal tt, fold_left (fun o line => domainsetLine line o) source o).
Proof.
  induction source as [|line source IH]; intro o; [reflexivity|].
  cbn [addFromDomainsetPromise fold_left]. unfold bind, modify. apply IH.
Qed.

(** X10: a domain set whose lines all begin with a dot leaves the
    instance exactly as [bulkAddDomainSuffix] of the same lines does, and
    a domain set none of whose lines begins with a dot exactly as
    [bulkAddDomain] of the same lines does. *)
Theorem domainset_agrees_with_bulk_adders (source : list string) o :
  (Forall (fun line => char_is line 0 "." = true) source ->
     addFromDomainsetPromise source o = (Normal tt, bulkAddDomainSuffix source o))
  /\ (Forall (fun line => char_is line 0 "." = false) source ->
     addFromDomainsetPromise source o = (Normal tt, bulkAddDomain (map Some source) o)).
Proof.
  rewrite addFromDomainsetPromise_fold. split; intro Hall; f_equal.
  - unfold bulkAddDomainSuffix. revert o.
    induction Hall as [|line source Hdot _ IH]; intro o; [reflexivity|].
    cbn [fold_left]. unfold domainsetLine at 2. rewrite Hdot. apply IH.
  - unfold bulkAddDomain. revert o.
    induction Hall as [|line source Hdot _ IH]; intro o; [reflexivity|].
    cbn [fold_left map]. unfold domainsetLine at 2. rewrite Hdot. apply IH.
Qed.

(** X11: [bulkAddDomain] skips the null entries of its array: the
    instance is left as by [bulkAddDomain] of the non-null entries alone,
    and the delegate receives one exact-domain call per non-null entry,
    in order. *)
Theorem bulkAddDomain_skips_null (domains : list (option string)) o :
  bulkAddDomain domains o = bulkAddDomain (map Some (nonNull domains)) o
  /\ domainTrie (bulkAddDomain domains o)
     = (domainTrie o
        ++ map (fun d => TrieAdd [ArgValue (str d); ArgBool false; ArgNull; ArgNumber 0])
               (nonNull domains))%list
  /\ sets (bulkAddDomain domains o) = sets o
  /\ otherRules (bulkAddDomain domains o) = otherRules o.
Proof.
  unfold bulkAddDomain. revert o.
  induction domains as [|[d|] domains IH]; intro o.
  - cbn. rewrite app_nil_r. repeat split.
  - cbn [fold_left nonNull flat_map app map].
    destruct (IH (trieAdd [ArgValue (str d); ArgBool false; ArgNull; ArgNumber 0] o))
      as (Hsame & Htrie & Hsets & Hother).
    split; [exact Hsame|]. split; [|split].
    + rewrite Htrie. unfold trieAdd. cbn [domainTrie set_domainTrie].
      rewrite <- app_assoc. reflexivity.
    + rewrite Hsets. reflexivity.
    + rewrite Hother. reflexivity.
  - cbn [fold_left nonNull flat_map app]. apply IH.
Qed.

Lemma list_ascii_of_string_app (a b : string) :
  list_ascii_of_string (a ++ b)
  = (list_ascii_of_string a ++ list_ascii_of_string b)%list.
Proof. induction a as [|x a IH]; cbn; [reflexivity | rewrite IH; reflexivity]. Qed.

Lemma ipToCidr_has_slash ip version : includes (ipToCidr ip version) "/" = true.
Proof.
  unfold ipToCidr. destruct (includes ip "/") eqn:E; [exact E|].
  destruct (version =? 4); apply includes_contains; unfold contains;
    rewrite list_ascii_of_string_app; apply in_or_app; right; left; reflexivity.
Qed.

Lemma ipToCidr_idempotent ip version version' :
  ipToCidr (ipToCidr ip version) version' = ipToCidr ip version.
Proof. unfold ipToCidr at 1. rewrite ipToCidr_has_slash. reflexivity. Qed.

Lemma bulk_normalised f version cidrs : forall o,
  fold_left (fun o cidr => setAdd f (str (ipToCidr cidr version)) o)
    (map (fun cidr => ipToCidr cidr version) cidrs) o
  = fold_left (fun o cidr => setAdd f (str (ipToCidr cidr version)) o) cidrs o.
Proof.
  induction cidrs as [|cidr cidrs IH]; intro o; [reflexivity|].
  cbn [map fold_left]. rewrite ipToCidr_idempotent. apply IH.
Qed.

(** X12: [ipToCidr] is idempotent, whatever the versions, since its
    result always contains a slash; so a bulk CIDR adder given entries
    that are already normalised leaves the instance as it does for the
    bare entries, and a bare address together with its own [/32] or
    [/128] form is stored once. *)
Theorem cidr_normalisation_is_idempotent :
  (forall ip version version',
      ipToCidr (ipToCidr ip version) version' = ipToCidr ip version)
  /\ (forall cidrs o,
        bulkAddCIDR4 (map (fun cidr => ipToCidr cidr 4) cidrs) o = bulkAddCIDR4 cidrs o
        /\ bulkAddCIDR4NoResolve (map (fun cidr => ipToCidr cidr 4) cidrs) o
           = bulkAddCIDR4NoResolve cidrs o
        /\ bulkAddCIDR6 (map (fun cidr => ipToCidr cidr 6) cidrs) o = bulkAddCIDR6 cidrs o
        /\ bulkAddCIDR6NoResolve (map (fun cidr => ipToCidr cidr 6) cidrs) o
           = bulkAddCIDR6NoResolve cidrs o)
  /\ (forall ip o,
        bulkAddCIDR4 [ip; ipToCidr ip 4] o = bulkAddCIDR4 [ip] o
        /\ bulkAddCIDR6 [ip; ipToCidr ip 6] o = bulkAddCIDR6 [ip] o).
Proof.
  split; [exact ipToCidr_idempotent|]. split.
  - intros cidrs o. repeat split; apply bulk_normalised.
  - intros ip o. unfold bulkAddCIDR4, bulkAddCIDR6. cbn [fold_left].
    rewrite !ipToCidr_idempotent. split; apply setAdd_idempotent.
Qed.

End BulkAdders.

Lemma domainset_agrees_with_bulk_adders_witness :
  addFromDomainsetPromise [".example.com"; ".example.org"] (newRuleOutput unit "demo" 0)
  = (Normal tt,
     bulkAddDomainSuffix [".example.com"; ".example.org"] (newRuleOutput unit "demo" 0)).
Proof.
  apply (proj1 (domainset_agrees_with_bulk_adders
                  [".example.com"; ".example.org"] (newRuleOutput unit "demo" 0))).
  repeat constructor.
Defined.

(* ================================================================= *)
(** ** Properties of the pending chain *)

Section PendingChain.
Context {T : Type}.
Implicit Types o : RuleOutput T.

Lemma set_pendingPromise_same o :
  set_pendingPromise (pendingPromise o) o = o.
Proof. destruct o. reflexivity. Qed.

Lemma rulesetLine_throws line o :
  typeOf line = str "PROCESS-NAME" -> valueOf line = undefined ->
  rulesetLine line o
  = (Throw "TypeError: Cannot read properties of undefined (reading 'includes')", o).
Proof.
  intros Htype Hvalue. unfold rulesetLine. cbv zeta.
  change (array_get (split comma line) 0) with (typeOf line).
  change (array_get (split comma line) 1) with (valueOf line).
  rewrite Htype, Hvalue. reflexivity.
Qed.

(** The pending chain is not read by the loop body. *)
Lemma rulesetLine_set_pendingPromise line p o :
  rulesetLine line (set_pendingPromise p o)
  = (fst (rulesetLine line o), set_pendingPromise p (snd (rulesetLine line o))).
Proof.
  destruct (rulesetLine_deliver line o) as [Hstep | (Htype & Hvalue & Hstep)].
  - destruct (rulesetLine_deliver line (set_pendingPromise p o))
      as [Hstep' | (Htype & Hvalue & _)].
    + rewrite Hstep, Hstep'. cbn [fst snd]. f_equal.
      destruct (specDestination line); reflexivity.
    + rewrite (rulesetLine_throws line o Htype Hvalue) in Hstep. discriminate.
  - rewrite Hstep, (rulesetLine_throws _ _ Htype Hvalue). reflexivity.
Qed.

Lemma addFromRulesetPromise_set_pendingPromise source p : forall o,
  addFromRulesetPromise source (set_pendingPromise p o)
  = (fst (addFromRulesetPromise source o),
     set_pendingPromise p (snd (addFromRulesetPromise source o))).
Proof.
  induction source as [|line source IH]; intro o; [reflexivity|].
  cbn [addFromRulesetPromise]. unfold bind.
  rewrite rulesetLine_set_pendingPromise.
  destruct (rulesetLine line o) as [[[]|e] o1]; cbn [fst snd]; [apply IH|reflexivity].
Qed.

Lemma addFromDomainsetPromise_set_pendingPromise source p : forall o,
  addFromDomainsetPromise source (set_pendingPromise p o)
  = (fst (addFromDomainsetPromise source o),
     set_pendingPromise p (snd (addFromDomainsetPromise source o))).
Proof.
  induction source as [|line source IH]; intro o; [reflexivity|].
  cbn [addFromDomainsetPromise]. unfold bind, modify.
  replace (domainsetLine line (set_pendingPromise p o))
    with (set_pendingPromise p (domainsetLine line o))
    by (unfold domainsetLine; destruct (char_is line 0 "."); reflexivity).
  apply IH.
Qed.

Lemma runTasks_set_pendingPromise tasks p : forall o,
  runTasks tasks (set_pendingPromise p o)
  = (fst (runTasks tasks o), set_pendingPromise p (snd (runTasks tasks o))).
Proof.
  induction tasks as [|t tasks IH]; intro o; [reflexivity|].
  cbn [runTasks]. unfold bind.
  assert (Ht : runTask t (set_pendingPromise p o)
               = (fst (runTask t o), set_pendingPromise p (snd (runTask t o)))).
  { destruct t; cbn [runTask];
      [apply addFromDomainsetPromise_set_pendingPromise
      |apply addFromRulesetPromise_set_pendingPromise]. }
  rewrite Ht. destruct (runTask t o) as [[[]|e] o1]; cbn [fst snd];
    [apply IH|reflexivity].
Qed.

(** What awaiting a chain of queued callbacks does, in terms of a run on
    the instance as it was before they were queued. *)
Lemma done_queued tasks o :
  done (set_pendingPromise (Some (Queued tasks)) o)
  = match runTasks tasks o with
    | (Normal _, o') => (Normal tt, set_pendingPromise None o')
    | (Throw e, o') => (Throw e, set_pendingPromise (Some (Rejected e)) o')
    end.
Proof.
  unfold done. cbn [pendingPromise set_pendingPromise].
  rewrite runTasks_set_pendingPromise.
  destruct (runTasks tasks o) as [[[]|e] o']; reflexivity.
Qed.

Lemma runTasks_app tasks : forall more o,
  runTasks (tasks ++ more) o = (runTasks tasks ;; runTasks more) o.
Proof.
  induction tasks as [|t tasks IH]; intros more o; [reflexivity|].
  cbn [app runTasks]. unfold bind.
  destruct (runTask t o) as [[[]|e] o1]; [|reflexivity].
  rewrite IH. reflexivity.
Qed.

Lemma addFromDomainsetPromise_app pre : forall post o,
  addFromDomainsetPromise (pre ++ post) o
  = (addFromDomainsetPromise pre ;; addFromDomainsetPromise post) o.
Proof.
  induction pre as [|line pre IH]; intros post o; [reflexivity|].
  cbn [app addFromDomainsetPromise]. unfold bind, modify. rewrite IH. reflexivity.
Qed.

Lemma runTasks_two_sources a b o :
  runTasks [RulesetTask a; RulesetTask b] o = runTasks [RulesetTask (a ++ b)] o
  /\ runTasks [DomainsetTask a; DomainsetTask b] o = runTasks [DomainsetTask (a ++ b)] o.
Proof.
  cbn [runTasks runTask]. unfold bind. split.
  - rewrite addFromRulesetPromise_app. unfold bind.
    destruct (addFromRulesetPromise a o) as [[[]|e] o1]; reflexivity.
  - rewrite addFromDomainsetPromise_app. unfold bind.
    destruct (addFromDomainsetPromise a o) as [[[]|e] o1]; reflexivity.
Qed.

Lemma done_two_tasks (t1 t2 t12 : task) o :
  (forall o, runTasks [t1; t2] o = runTasks [t12] o) ->
  done (set_pendingPromise
          (Some (chain (Some (chain (pendingPromise o) t1)) t2)) o)
  = done (set_pendingPromise (Some (chain (pendingPromise o) t12)) o).
Proof.
  intro Hsame. destruct (pendingPromise o) as [[tasks|e]|]; cbn [chain].
  - rewrite !done_queued, <- app_assoc. cbn [app]. rewrite !runTasks_app.
    unfold bind. destruct (runTasks tasks o) as [[[]|e] o1]; [|reflexivity].
    rewrite Hsame. reflexivity.
  - reflexivity.
  - rewrite !done_queued, Hsame. reflexivity.
Qed.

(** X13: two sources handed over one after the other are ingested, when
    the chain is awaited, as one source made of the first followed by
    the second: same outcome, same instance.  This holds for rule sets
    and for domain sets, whatever was pending before. *)
Theorem queued_sources_are_ingested_in_call_order (a b : list string) o :
  done (addFromRuleset b (addFromRuleset a o)) = done (addFromRuleset (a ++ b) o)
  /\ done (addFromDomainset b (addFromDomainset a o))
     = done (addFromDomainset (a ++ b) o).
Proof.
  split.
  - exact (done_two_tasks (RulesetTask a) (RulesetTask b) (RulesetTask (a ++ b)) o
             (fun o => proj1 (runTasks_two_sources a b o))).
  - exact (done_two_tasks (DomainsetTask a) (DomainsetTask b) (DomainsetTask (a ++ b)) o
             (fun o => proj2 (runTasks_two_sources a b o))).
Qed.

(** A resolved barrier leaves no pending chain. *)
Lemma done_resolved_idle o o1 : done o = (Normal tt, o1) -> pendingPromise o1 = None.
Proof.
  unfold done. destruct (pendingPromise o) as [[tasks|e]|].
  - destruct (runTasks tasks o) as [[[]|e] o']; [|discriminate].
    intro H. injection H as <-. reflexivity.
  - discriminate.
  - intro H. injection H as <-. reflexivity.
Qed.

(** X14: once [done()] has resolved, the chain is cleared and a further
    [done()] resolves at once and changes nothing. *)
Theorem done_is_idempotent o o1 :
  done o = (Normal tt, o1) ->
  pendingPromise o1 = None /\ done o1 = (Normal tt, o1).
Proof.
  unfold done at 1. destruct (pendingPromise o) as [[tasks|e]|].
  - destruct (runTasks tasks o) as [[[]|e] o']; [|discriminate].
    intro H. injection H as <-. split; reflexivity.
  - discriminate.
  - intro H. injection H as <-. split; reflexivity.
Qed.

(** X15: once [done()] has thrown, the instance stays rejected: the
    chain holds the error, every further [done()] throws the same error
    and changes nothing, and a source added afterwards is dropped, the
    instance being left as it is. *)
Theorem rejected_chain_stays_rejected o e o1 :
  done o = (Throw e, o1) ->
  pendingPromise o1 = Some (Rejected e)
  /\ done o1 = (Throw e, o1)
  /\ (forall source, addFromRuleset source o1 = o1
                     /\ addFromDomainset source o1 = o1).
Proof.
  intro Hdone.
  assert (Hp : pendingPromise o1 = Some (Rejected e)).
  { unfold done in Hdone. destruct (pendingPromise o) as [[tasks|e']|] eqn:Hpending.
    - destruct (runTasks tasks o) as [[[]|e'] o']; [discriminate|].
      injection Hdone as <- <-. reflexivity.
    - injection Hdone as <- <-. exact Hpending.
    - discriminate. }
  split; [exact Hp|]. split.
  - unfold done. rewrite Hp. reflexivity.
  - intro source. unfold addFromRuleset, addFromDomainset. rewrite Hp. cbn [chain].
    rewrite <- Hp. split; apply set_pendingPromise_same.
Qed.

Context {subclass : Subclass T}.

(** X16: after [done()] has resolved, a read of the preprocessed view
    returns: the guard does not throw.  The view is the cached one if
    there is one, and otherwise what [preprocess] computes from the
    instance as the ingestion left it. *)
Theorem read_after_barrier_returns o o1 :
  done o = (Normal tt, o1) ->
  exists o2,
    get_preprocessed o1
    = (Normal (match preprocessed o with
               | Some view => Some view
               | None => preprocess (traceChild "preprocess" o1)
               end), o2)
    /\ sets o2 = sets o1 /\ domainTrie o2 = domainTrie o1
    /\ otherRules o2 = otherRules o1.
Proof.
  intro Hdone.
  destruct (done_sameMetadata _ _ _ Hdone) as (_ & _ & _ & _ & Hcache & _).
  pose proof (done_resolved_idle _ _ Hdone) as Hidle.
  destruct (preprocessed o) as [view|] eqn:Hview.
  - rewrite (get_preprocessed_cached o1 view Hcache). eexists. repeat split.
  - rewrite (get_preprocessed_first o1 Hcache Hidle). eexists. repeat split.
Qed.

End PendingChain.

Lemma done_is_idempotent_witness :
  pendingPromise
    (snd (done (addFromRuleset ["DOMAIN-KEYWORD,ads"] (newRuleOutput unit "demo" 0))))
  = None
  /\ done (snd (done (addFromRuleset ["DOMAIN-KEYWORD,ads"] (newRuleOutput unit "demo" 0))))
     = (Normal tt,
        snd (done (addFromRuleset ["DOMAIN-KEYWORD,ads"] (newRuleOutput unit "demo" 0)))).
Proof.
  apply (done_is_idempotent
           (addFromRuleset ["DOMAIN-KEYWORD,ads"] (newRuleOutput unit "demo" 0))).
  reflexivity.
Defined.

Lemma rejected_chain_stays_rejected_witness :
  pendingPromise
    (snd (done (addFromRuleset ["PROCESS-NAME"] (newRuleOutput unit "demo" 0))))
  = Some (Rejected "TypeError: Cannot read properties of undefined (reading 'includes')")
  /\ done (snd (done (addFromRuleset ["PROCESS-NAME"] (newRuleOutput unit "demo" 0))))
     = (Throw "TypeError: Cannot read properties of undefined (reading 'includes')",
        snd (done (addFromRuleset ["PROCESS-NAME"] (newRuleOutput unit "demo" 0))))
  /\ (forall source,
        addFromRuleset source
          (snd (done (addFromRuleset ["PROCESS-NAME"] (newRuleOutput unit "demo" 0))))
        = snd (done (addFromRuleset ["PROCESS-NAME"] (newRuleOutput unit "demo" 0)))
        /\ addFromDomainset source
             (snd (done (addFromRuleset ["PROCESS-NAME"] (newRuleOutput unit "demo" 0))))
           = snd (done (addFromRuleset ["PROCESS-NAME"] (newRuleOutput unit "demo" 0)))).
Proof.
  apply (rejected_chain_stays_rejected
           (addFromRuleset ["PROCESS-NAME"] (newRuleOutput unit "demo" 0))).
  reflexivity.
Defined.

Lemma read_after_barrier_returns_witness :
  exists o2,
    get_preprocessed
      (snd (done (addFromRuleset ["FINAL,DIRECT"] (newRuleOutput (list string) "demo" 0))))
    = (Normal (Some ["FINAL,DIRECT"]), o2)
    /\ sets o2
       = sets (snd (done (addFromRuleset ["FINAL,DIRECT"]
                            (newRuleOutput (list string) "demo" 0))))
    /\ domainTrie o2
       = domainTrie (snd (done (addFromRuleset ["FINAL,DIRECT"]
                                  (newRuleOutput (list string) "demo" 0))))
    /\ otherRules o2
       = otherRules (snd (done (addFromRuleset ["FINAL,DIRECT"]
                                  (newRuleOutput (list string) "demo" 0)))).
Proof.
  exact (read_after_barrier_returns
           (addFromRuleset ["FINAL,DIRECT"] (newRuleOutput (list string) "demo" 0))
           (snd (done (addFromRuleset ["FINAL,DIRECT"]
                         (newRuleOutput (list string) "demo" 0))))
           eq_refl).
Defined.

Section MorePublishing.
Context {reader : LineReader} {timing : StreamTiming}.


End MorePublishing.
